(** * Background tasks of Weblate ([weblate/trans/tasks.py])

    A shallow embedding of the Celery tasks that keep components committed,
    alerts up to date, the fulltext index clean and the checkout directory
    free of stale repositories, together with the properties the
    specification states about them.

    Database tables are finite maps keyed by primary key, a queryset without
    an explicit order is iterated in the order of [map_to_list], and a task
    body is a computation in a state-and-exception monad over the [world]. *)

From Stdlib Require Import ZArith QArith Ascii String.
From stdpp Require Import base tactics option list gmap sets strings.

Local Open Scope Z_scope.

(** ** Python values that cross task boundaries *)

(** Positional task arguments and the value of [settings.AUTO_UPDATE]. *)
Inductive pyval :=
| PyNone
| PyBool (b : bool)
| PyInt (n : Z)
| PyStr (s : string).

Global Instance pyval_eq_dec : EqDecision pyval.
Proof. solve_decision. Defined.

(** Python's [==]: [bool] is a subclass of [int], so [True == 1]. *)
Definition py_eq (x y : pyval) : bool :=
  match x, y with
  | PyNone, PyNone => true
  | PyStr a, PyStr b => bool_decide (a = b)
  | PyBool a, PyBool b => bool_decide (a = b)
  | PyInt a, PyInt b => bool_decide (a = b)
  | PyBool a, PyInt b | PyInt b, PyBool a => bool_decide ((if a then 1 else 0) = b)
  | _, _ => false
  end.

(** [x in (v1, ..., vn)] on a tuple. *)
Definition py_in (x : pyval) (tuple : list pyval) : bool :=
  existsb (py_eq x) tuple.

(** ** Exceptions *)

Inductive model := ProjectModel | ComponentModel | UserModel.

Global Instance model_eq_dec : EqDecision model.
Proof. solve_decision. Defined.

Inductive exn :=
| Timeout                      (* filelock.Timeout *)
| FileParseError               (* weblate.trans.exceptions.FileParseError *)
| EmptyIndexError              (* whoosh.index.EmptyIndexError *)
| DoesNotExist (m : model)     (* <Model>.DoesNotExist *)
| PermissionError
| OtherError (msg : string).

Global Instance exn_eq_dec : EqDecision exn.
Proof. solve_decision. Defined.

Inductive result (A : Type) :=
| Ok (a : A)
| Raise (e : exn).
Arguments Ok {A} a.
Arguments Raise {A} e.

(** ** Database rows *)

Record project := Project { project_slug : string }.

Record component := Component {
  project_id : Z;                (* ForeignKey(Project) *)
  slug : string;
  template : string;
  is_repo_link : bool;           (* repository is a weblate:// link *)
  commit_pending_age : Z;        (* hours *)
  last_changed : option Z;       (* stats.last_changed, microseconds *)
  needs_commit : bool;           (* needs_commit() *)
  component_str : string;        (* str(component) *)
  source_translation : Z;        (* pk of the source translation *)
  count_missing : Z;             (* repository.count_missing() *)
  count_outgoing : Z             (* repository.count_outgoing() *)
}.

Global Instance component_eq_dec : EqDecision component.
Proof. solve_decision. Defined.

Record translation := Translation { component_id : Z }.

Record unit_row := Unit { translation_id : Z; id_hash : Z }.

Record suggestion := Suggestion { suggestion_timestamp : Z }.

Record comment := Comment { comment_timestamp : Z }.

Inductive change_action := ACTION_REMOVE_COMPONENT | ACTION_REMOVE_PROJECT.

Record change := Change {
  change_project : option Z;
  change_action_of : change_action;
  change_target : string;
  change_user : Z;
  change_author : Z
}.

(** A document of the fulltext index; [item_pk] is [item["pk"]]. *)
Record stored_fields := StoredFields { item_pk : Z }.

(** An entry two levels below [data_dir("vcs")]. Times are seconds. *)
Record dirent := Dirent { is_dir : bool; mtime : Q; read_only : bool }.

(** ** Tasks as they sit in the queue *)

Inductive task :=
| perform_update_task (cls : string) (pk : Z) (auto : bool)
| perform_load_task (pk : Z) (args : list pyval)
| perform_commit_task (pk : Z) (args : list pyval)
| perform_push_task (pk : Z) (args : list pyval)
| commit_pending_task (hours : option Z) (pks : option (list Z)) (logger : bool)
| cleanup_fulltext_task
| cleanup_project_task (pk : Z)
| update_remotes_task
| cleanup_stale_repos_task
| cleanup_old_suggestions_task
| cleanup_old_comments_task
| repository_alerts_task (threshold : option Z)
| component_removal_task (pk uid : Z)
| project_removal_task (pk uid : Z).

Global Instance task_eq_dec : EqDecision task.
Proof. solve_decision. Defined.

(** ** The world a task runs in *)

Record world := World {
  AUTO_UPDATE : pyval;
  SUGGESTION_CLEANUP_DAYS : option Z;
  COMMENT_CLEANUP_DAYS : option Z;
  users : gset Z;
  projects : gmap Z project;
  components : gmap Z component;
  translations : gmap Z translation;
  units : gmap Z unit_row;
  suggestions : gmap Z suggestion;
  comments : gmap Z comment;
  changes : list change;
  language_codes : list string;
  alerts : gset (Z * string);
  fulltext : gmap (option string) (list stored_fields);
  vcs_tree : gmap (string * string) dirent;
  queue : list task;
  output : list string;
  clock : nat -> Z;              (* successive readings, microseconds *)
  ticks : nat
}.

Definition set_units (f : gmap Z unit_row -> gmap Z unit_row) (w : world) : world :=
  World (AUTO_UPDATE w) (SUGGESTION_CLEANUP_DAYS w) (COMMENT_CLEANUP_DAYS w)
    (users w) (projects w) (components w) (translations w) (f (units w))
    (suggestions w) (comments w) (changes w) (language_codes w) (alerts w)
    (fulltext w) (vcs_tree w) (queue w) (output w) (clock w) (ticks w).

Definition set_suggestions (f : gmap Z suggestion -> gmap Z suggestion) (w : world) : world :=
  World (AUTO_UPDATE w) (SUGGESTION_CLEANUP_DAYS w) (COMMENT_CLEANUP_DAYS w)
    (users w) (projects w) (components w) (translations w) (units w)
    (f (suggestions w)) (comments w) (changes w) (language_codes w) (alerts w)
    (fulltext w) (vcs_tree w) (queue w) (output w) (clock w) (ticks w).

Definition set_comments (f : gmap Z comment -> gmap Z comment) (w : world) : world :=
  World (AUTO_UPDATE w) (SUGGESTION_CLEANUP_DAYS w) (COMMENT_CLEANUP_DAYS w)
    (users w) (projects w) (components w) (translations w) (units w)
    (suggestions w) (f (comments w)) (changes w) (language_codes w) (alerts w)
    (fulltext w) (vcs_tree w) (queue w) (output w) (clock w) (ticks w).

Definition set_changes (f : list change -> list change) (w : world) : world :=
  World (AUTO_UPDATE w) (SUGGESTION_CLEANUP_DAYS w) (COMMENT_CLEANUP_DAYS w)
    (users w) (projects w) (components w) (translations w) (units w)
    (suggestions w) (comments w) (f (changes w)) (language_codes w) (alerts w)
    (fulltext w) (vcs_tree w) (queue w) (output w) (clock w) (ticks w).

Definition set_alerts (f : gset (Z * string) -> gset (Z * string)) (w : world) : world :=
  World (AUTO_UPDATE w) (SUGGESTION_CLEANUP_DAYS w) (COMMENT_CLEANUP_DAYS w)
    (users w) (projects w) (components w) (translations w) (units w)
    (suggestions w) (comments w) (changes w) (language_codes w) (f (alerts w))
    (fulltext w) (vcs_tree w) (queue w) (output w) (clock w) (ticks w).

Definition set_fulltext
    (f : gmap (option string) (list stored_fields) -> gmap (option string) (list stored_fields))
    (w : world) : world :=
  World (AUTO_UPDATE w) (SUGGESTION_CLEANUP_DAYS w) (COMMENT_CLEANUP_DAYS w)
    (users w) (projects w) (components w) (translations w) (units w)
    (suggestions w) (comments w) (changes w) (language_codes w) (alerts w)
    (f (fulltext w)) (vcs_tree w) (queue w) (output w) (clock w) (ticks w).

Definition set_vcs_tree
    (f : gmap (string * string) dirent -> gmap (string * string) dirent)
    (w : world) : world :=
  World (AUTO_UPDATE w) (SUGGESTION_CLEANUP_DAYS w) (COMMENT_CLEANUP_DAYS w)
    (users w) (projects w) (components w) (translations w) (units w)
    (suggestions w) (comments w) (changes w) (language_codes w) (alerts w)
    (fulltext w) (f (vcs_tree w)) (queue w) (output w) (clock w) (ticks w).

Definition set_queue (f : list task -> list task) (w : world) : world :=
  World (AUTO_UPDATE w) (SUGGESTION_CLEANUP_DAYS w) (COMMENT_CLEANUP_DAYS w)
    (users w) (projects w) (components w) (translations w) (units w)
    (suggestions w) (comments w) (changes w) (language_codes w) (alerts w)
    (fulltext w) (vcs_tree w) (f (queue w)) (output w) (clock w) (ticks w).

Definition set_output (f : list string -> list string) (w : world) : world :=
  World (AUTO_UPDATE w) (SUGGESTION_CLEANUP_DAYS w) (COMMENT_CLEANUP_DAYS w)
    (users w) (projects w) (components w) (translations w) (units w)
    (suggestions w) (comments w) (changes w) (language_codes w) (alerts w)
    (fulltext w) (vcs_tree w) (queue w) (f (output w)) (clock w) (ticks w).

Definition set_ticks (f : nat -> nat) (w : world) : world :=
  World (AUTO_UPDATE w) (SUGGESTION_CLEANUP_DAYS w) (COMMENT_CLEANUP_DAYS w)
    (users w) (projects w) (components w) (translations w) (units w)
    (suggestions w) (comments w) (changes w) (language_codes w) (alerts w)
    (fulltext w) (vcs_tree w) (queue w) (output w) (clock w) (f (ticks w)).

(** ** The task monad: state plus exceptions *)

Definition M (A : Type) : Type := world -> result A * world.

Definition ret {A} (a : A) : M A := fun w => (Ok a, w).

Definition bind {A B} (m : M A) (k : A -> M B) : M B :=
  fun w =>
    match m w with
    | (Ok a, w') => k a w'
    | (Raise e, w') => (Raise e, w')
    end.

Definition raise {A} (e : exn) : M A := fun w => (Raise e, w).

(** [try: body except <handler>]: the handler decides, per exception,
    whether it applies ([Some]) or the exception propagates ([None]). *)
Definition try_except {A} (body : M A) (handler : exn -> option (M A)) : M A :=
  fun w =>
    match body w with
    | (Ok a, w') => (Ok a, w')
    | (Raise e, w') =>
        match handler e with
        | Some h => h w'
        | None => (Raise e, w')
        end
    end.

Definition gets {A} (f : world -> A) : M A := fun w => (Ok (f w), w).

Definition modify (f : world -> world) : M unit := fun w => (Ok tt, f w).

Notation "x <- m ;; k" := (bind m (fun x => k))
  (at level 100, m at next level, right associativity).
Notation "m ;;; k" := (bind m (fun _ => k))
  (at level 100, right associativity).

(** [for x in xs: body x]; a [continue] is a body that returns early. *)
Fixpoint for_each {A} (xs : list A) (body : A -> M unit) : M unit :=
  match xs with
  | [] => ret tt
  | x :: rest => body x ;;; for_each rest body
  end.

(** ** Library calls *)

(** [timezone.now()]: the next reading of the clock, in microseconds. *)
Definition timezone_now : M Z :=
  fun w => (Ok (clock w (ticks w)), set_ticks S w).

(** [time.time()]: the same clock read as seconds since the epoch. *)
Definition time_time : M Q :=
  fun w => (Ok (clock w (ticks w) # 1000000), set_ticks S w).

Definition timedelta_hours (h : Z) : Z := h * 3600000000.
Definition timedelta_days (d : Z) : Z := d * 86400000000.

Definition Qgtb (x y : Q) : bool := negb (Qle_bool x y).

(** [<task>.delay(...)]: the call is put on the queue, nothing runs. *)
Definition delay (t : task) : M unit :=
  modify (set_queue (fun q => q ++ [t])).

(** The [logger] callable of [commit_pending], writing a line. *)
Definition log_line (line : string) : M unit :=
  modify (set_output (fun o => o ++ [line])).

(** ** Querysets *)

Definition Project_objects_get (pk : Z) : M project :=
  fun w =>
    match projects w !! pk with
    | Some p => (Ok p, w)
    | None => (Raise (DoesNotExist ProjectModel), w)
    end.

Definition Component_objects_get (pk : Z) : M component :=
  fun w =>
    match components w !! pk with
    | Some c => (Ok c, w)
    | None => (Raise (DoesNotExist ComponentModel), w)
    end.

Definition User_objects_get (pk : Z) : M Z :=
  fun w =>
    if bool_decide (pk ∈ users w) then (Ok pk, w)
    else (Raise (DoesNotExist UserModel), w).

Definition Change_objects_create (c : change) : M unit :=
  modify (set_changes (fun l => l ++ [c])).

(** [Component.objects.all()] *)
Definition Component_objects_all (w : world) : list (Z * component) :=
  map_to_list (components w).

(** [Component.objects.filter(translation__pk__in=pks)]: the join has one
    row per translation whose pk is listed. *)
Definition Component_filter_translation_pk_in (pks : list Z) (w : world)
    : list (Z * component) :=
  omap (fun kt : Z * translation =>
          if bool_decide (kt.1 ∈ pks)
          then (fun c => (component_id kt.2, c)) <$> components w !! component_id kt.2
          else None)
       (map_to_list (translations w)).

(** [.distinct()] *)
Definition distinct (rows : list (Z * component)) : list (Z * component) :=
  remove_dups rows.

(** Modelled from the spec: [Component.objects.with_repo()] is missing from
    the sources; the spec describes it as the components backed by a real
    upstream, excluding purely-linked mirrors. *)
Definition with_repo (w : world) : list (Z * component) :=
  filter (fun kc : Z * component => is_repo_link kc.2 = false)
         (map_to_list (components w)).

Definition Unit_exists (pk : Z) : M bool :=
  gets (fun w => bool_decide (is_Some (units w !! pk))).

(** ** commit_pending *)

Definition commit_pending_body (hours : option Z) (logger : bool)
    (row : Z * component) : M unit :=
  let component := row.2 in
  now <- timezone_now ;;
  let age :=
    match hours with
    | None => now - timedelta_hours (commit_pending_age component)
    | Some h => now - timedelta_hours h
    end in
  match last_changed component with
  | None => ret tt
  | Some last_change =>
      if bool_decide (last_change > age) then ret tt
      else if negb (needs_commit component) then ret tt
      else
        (if logger then log_line ("Committing " +:+ component_str component)
         else ret tt) ;;;
        delay (perform_commit_task row.1 [PyStr "commit_pending"; PyNone])
  end.

Definition commit_pending_components (pks : option (list Z)) (w : world)
    : list (Z * component) :=
  match pks with
  | None => Component_objects_all w
  | Some pks => distinct (Component_filter_translation_pk_in pks w)
  end.

Definition commit_pending (hours : option Z) (pks : option (list Z))
    (logger : bool) : M unit :=
  components <- gets (commit_pending_components pks) ;;
  for_each components (commit_pending_body hours logger).

(** ** cleanup_fulltext *)

(** [index.reader().all_stored_fields()] of the partition for [lang]
    ([None] is the source index); a partition that was never built has no
    reader. *)
Definition all_stored_fields (lang : option string) : M (list stored_fields) :=
  fun w =>
    match fulltext w !! lang with
    | Some items => (Ok items, w)
    | None => (Raise EmptyIndexError, w)
    end.

(** Modelled from the spec: [Fulltext.clean_search_unit] is missing from the
    sources; the spec gives it as [remove_entry(unit_id, language)]. *)
Definition clean_search_unit (pk : Z) (lang : option string) : M unit :=
  modify (set_fulltext
            (alter (filter (fun item : stored_fields => item_pk item ≠ pk)) lang)).

Definition cleanup_fulltext_items (lang : option string)
    (fields : list stored_fields) : M unit :=
  for_each fields (fun item =>
    found <- Unit_exists (item_pk item) ;;
    if found then ret tt
    else clean_search_unit (item_pk item) lang).

(** The body of the loop over the languages. *)
Definition cleanup_fulltext_lang (lang : option string) : M unit :=
  fields <- try_except
              (fields <- all_stored_fields lang ;; ret (Some fields))
              (fun e => match e with
                        | EmptyIndexError => Some (ret None)
                        | _ => None
                        end) ;;
  match fields with
  | None => ret tt
  | Some fields => cleanup_fulltext_items lang fields
  end.

Definition cleanup_fulltext : M unit :=
  codes <- gets language_codes ;;
  let languages := (Some <$> codes) ++ [None] in
  for_each languages cleanup_fulltext_lang.

(** ** cleanup_project *)

Definition cleanup_sources_component (row : Z * component) : M unit :=
  let translation := source_translation row.2 in
  source_ids <- gets (fun w =>
    remove_dups
      (id_hash <$>
         filter (fun u : unit_row =>
                   component_id <$> translations w !! translation_id u = Some row.1
                   ∧ translation_id u ≠ translation)
                (map_to_list (units w)).*2)) ;;
  modify (set_units
            (filter (fun ku : Z * unit_row =>
                       ¬ (translation_id ku.2 = translation
                          ∧ id_hash ku.2 ∉ source_ids)))).

Definition cleanup_sources (project_pk : Z) : M unit :=
  rows <- gets (fun w =>
    filter (fun kc : Z * component =>
              project_id kc.2 = project_pk ∧ template kc.2 = "")
           (map_to_list (components w))) ;;
  for_each rows cleanup_sources_component.

Definition cleanup_project (pk : Z) : M unit :=
  found <- try_except
             (p <- Project_objects_get pk ;; ret (Some p))
             (fun e => match e with
                       | DoesNotExist ProjectModel => Some (ret None)
                       | _ => None
                       end) ;;
  match found with
  | None => ret tt
  | Some _ => cleanup_sources pk
  end.

(** ** update_remotes *)

Definition update_remotes : M unit :=
  non_linked <- gets with_repo ;;
  auto_update <- gets AUTO_UPDATE ;;
  if negb (py_in auto_update
             [PyStr "full"; PyStr "remote"; PyBool true; PyBool false])
  then ret tt
  else for_each non_linked (fun row =>
         delay (perform_update_task "Component" row.1 true)).

(** ** cleanup_stale_repos *)

(** [*] in a glob mask does not match names that start with a dot. *)
Definition glob_star (name : string) : bool :=
  match name with
  | String "."%char _ => false
  | EmptyString => false
  | _ => true
  end.

(** [glob(os.path.join(prefix, "*", "*"))]; a path is kept as its two
    components below the prefix, which is what
    [os.path.split(path[len(prefix) + 1:])] recovers. *)
Definition glob_vcs (w : world) : list (string * string) :=
  filter (fun path : string * string => glob_star path.1 && glob_star path.2)
         (map_to_list (vcs_tree w)).*1.

Definition isdir (path : string * string) : M bool :=
  gets (fun w => match vcs_tree w !! path with
                 | Some d => is_dir d
                 | None => false
                 end).

Definition getmtime (path : string * string) : M Q :=
  fun w =>
    match vcs_tree w !! path with
    | Some d => (Ok (mtime d), w)
    | None => (Raise (OtherError "FileNotFoundError"), w)
    end.

(** [shutil.rmtree(path, onerror=handler)]: removing a read-only tree
    fails, and the failure is handed to [onerror] when one is given. *)
Definition rmtree (path : string * string)
    (onerror : option (string * string -> M unit)) : M unit :=
  fun w =>
    match vcs_tree w !! path with
    | None => (Raise (OtherError "FileNotFoundError"), w)
    | Some d =>
        if read_only d then
          match onerror with
          | Some handler => handler path w
          | None => (Raise PermissionError, w)
          end
        else (Ok tt, set_vcs_tree (delete path) w)
    end.

(** Modelled from the spec: [weblate.utils.files.remove_readonly] is missing
    from the sources; the spec has the removal clear read-only permissions
    and then delete, rather than fail. *)
Definition remove_readonly (path : string * string) : M unit :=
  modify (set_vcs_tree
            (fun tree =>
               delete path
                 (alter (fun d => Dirent (is_dir d) (mtime d) false) path tree))).

(** [Component.objects.with_repo().filter(slug=..., project__slug=...)] *)
Definition matching_components (project_ component_ : string) (w : world)
    : list (Z * component) :=
  filter (fun kc : Z * component =>
            slug kc.2 = component_
            ∧ project_slug <$> projects w !! project_id kc.2 = Some project_)
         (with_repo w).

Definition exists_ {A} (rows : list A) : bool :=
  match rows with
  | [] => false
  | _ :: _ => true
  end.

Definition cleanup_stale_repos_body (yesterday : Q) (path : string * string)
    : M unit :=
  d <- isdir path ;;
  if negb d then ret tt
  else
    m <- getmtime path ;;
    if Qgtb m yesterday then ret tt
    else
      let project_ := path.1 in
      let component_ := path.2 in
      objects <- gets (matching_components project_ component_) ;;
      if negb (exists_ objects) then rmtree path (Some remove_readonly)
      else ret tt.

Definition cleanup_stale_repos : M unit :=
  now <- time_time ;;
  let yesterday := (now - 86400)%Q in
  paths <- gets glob_vcs ;;
  for_each paths (cleanup_stale_repos_body yesterday).

(** ** cleanup_old_suggestions, cleanup_old_comments *)

Definition cleanup_old_suggestions : M unit :=
  days <- gets SUGGESTION_CLEANUP_DAYS ;;
  match days with
  | None => ret tt
  | Some d =>
      if bool_decide (d = 0) then ret tt
      else
        now <- timezone_now ;;
        let cutoff := now - timedelta_days d in
        modify (set_suggestions
                  (filter (fun ks : Z * suggestion =>
                             ¬ suggestion_timestamp ks.2 < cutoff)))
  end.

Definition cleanup_old_comments : M unit :=
  days <- gets COMMENT_CLEANUP_DAYS ;;
  match days with
  | None => ret tt
  | Some d =>
      if bool_decide (d = 0) then ret tt
      else
        now <- timezone_now ;;
        let cutoff := now - timedelta_days d in
        modify (set_comments
                  (filter (fun kc : Z * comment =>
                             ¬ comment_timestamp kc.2 < cutoff)))
  end.

(** ** repository_alerts *)

(** Modelled from the spec: [Component.add_alert] and
    [Component.delete_alert] are missing from the sources; the spec has an
    alert be active or not per (name, repository) pair, with add-if-absent
    and remove-if-present. *)
Definition add_alert (pk : Z) (name : string) : M unit :=
  modify (set_alerts (fun a => {[ (pk, name) ]} ∪ a)).

Definition delete_alert (pk : Z) (name : string) : M unit :=
  modify (set_alerts (fun a => a ∖ {[ (pk, name) ]})).

Definition repository_alerts_body (threshold : Z) (row : Z * component)
    : M unit :=
  (if bool_decide (count_missing row.2 > threshold)
   then add_alert row.1 "RepositoryOutdated"
   else delete_alert row.1 "RepositoryOutdated") ;;;
  (if bool_decide (count_outgoing row.2 > threshold)
   then add_alert row.1 "RepositoryChanges"
   else delete_alert row.1 "RepositoryChanges").

Definition repository_alerts (threshold : option Z) : M unit :=
  let threshold := default 10 threshold in
  non_linked <- gets with_repo ;;
  for_each non_linked (repository_alerts_body threshold).

(** ** Tasks that call into the component and project models *)

Inductive obj_ref :=
| ProjectRef (pk : Z)
| ComponentRef (pk : Z).

Global Instance obj_ref_eq_dec : EqDecision obj_ref.
Proof. solve_decision. Defined.

(** Methods of [Project] and [Component] that live outside this module. *)
Inductive method :=
| do_update (obj : obj_ref)
| update_remote_branch (obj : obj_ref)
| create_translations (pk : Z) (args : list pyval)
| component_commit_pending (pk : Z) (args : list pyval)
| do_push (pk : Z) (args : list pyval)
| obj_delete (obj : obj_ref).     (* obj.delete() *)

Global Instance method_eq_dec : EqDecision method.
Proof. solve_decision. Defined.

(** [except FileParseError: return] *)
Definition except_FileParseError (e : exn) : option (M unit) :=
  match e with
  | FileParseError => Some (ret tt)
  | _ => None
  end.

Section Tasks.

(** What a call of such a method does to the world, and what it raises. *)
Variable invoke : method -> M unit.

(** The [try] block of [perform_update]. *)
Definition perform_update_try (cls : string) (pk : Z) (auto : bool) : M unit :=
  obj <- (if bool_decide (cls = "Project")
          then Project_objects_get pk ;;; ret (ProjectRef pk)
          else Component_objects_get pk ;;; ret (ComponentRef pk)) ;;
  auto_update <- gets AUTO_UPDATE ;;
  if py_in auto_update [PyStr "full"; PyBool true] || negb auto
  then invoke (do_update obj)
  else invoke (update_remote_branch obj).

Definition perform_update (cls : string) (pk : Z) (auto : bool) : M unit :=
  try_except (perform_update_try cls pk auto) except_FileParseError.

Definition perform_load (pk : Z) (args : list pyval) : M unit :=
  Component_objects_get pk ;;;
  invoke (create_translations pk args).

Definition perform_commit (pk : Z) (args : list pyval) : M unit :=
  Component_objects_get pk ;;;
  invoke (component_commit_pending pk args).

Definition perform_push (pk : Z) (args : list pyval) : M unit :=
  Component_objects_get pk ;;;
  invoke (do_push pk args).

Definition component_removal (pk uid : Z) : M unit :=
  user <- User_objects_get uid ;;
  try_except
    (obj <- Component_objects_get pk ;;
     Change_objects_create
       (Change (Some (project_id obj)) ACTION_REMOVE_COMPONENT (slug obj)
               user user) ;;;
     invoke (obj_delete (ComponentRef pk)))
    (fun e => match e with
              | DoesNotExist ProjectModel => Some (ret tt)
              | _ => None
              end).

Definition project_removal (pk uid : Z) : M unit :=
  user <- User_objects_get uid ;;
  try_except
    (obj <- Project_objects_get pk ;;
     Change_objects_create
       (Change None ACTION_REMOVE_PROJECT (project_slug obj) user user) ;;;
     invoke (obj_delete (ProjectRef pk)))
    (fun e => match e with
              | DoesNotExist ProjectModel => Some (ret tt)
              | _ => None
              end).

(** The body registered for each task. *)
Definition run_task (t : task) : M unit :=
  match t with
  | perform_update_task cls pk auto => perform_update cls pk auto
  | perform_load_task pk args => perform_load pk args
  | perform_commit_task pk args => perform_commit pk args
  | perform_push_task pk args => perform_push pk args
  | commit_pending_task hours pks logger => commit_pending hours pks logger
  | cleanup_fulltext_task => cleanup_fulltext
  | cleanup_project_task pk => cleanup_project pk
  | update_remotes_task => update_remotes
  | cleanup_stale_repos_task => cleanup_stale_repos
  | cleanup_old_suggestions_task => cleanup_old_suggestions
  | cleanup_old_comments_task => cleanup_old_comments
  | repository_alerts_task threshold => repository_alerts threshold
  | component_removal_task pk uid => component_removal pk uid
  | project_removal_task pk uid => project_removal pk uid
  end.

End Tasks.

(** ** The task executor *)

(** The options of the [@app.task(...)] decorators. *)
Record task_options := TaskOptions {
  autoretry_for : list exn;
  retry_backoff : option Z;
  retry_backoff_max : option Z
}.

Definition lock_retry : task_options :=
  TaskOptions [Timeout] (Some 600) (Some 3600).

Definition no_retry : task_options := TaskOptions [] None None.

Definition options_of (t : task) : task_options :=
  match t with
  | perform_update_task _ _ _
  | perform_load_task _ _
  | perform_commit_task _ _
  | perform_push_task _ _
  | commit_pending_task _ _ _ => lock_retry
  | _ => no_retry
  end.

Inductive outcome :=
| Done
| Retrying (countdown : Z)
| Failed (e : exn).

(** Modelled from the spec: the executor behind [@app.task] is missing from
    the sources. The spec has it reschedule a task that fails with a
    designated transient error, with a delay that starts at the backoff
    given, doubles with each retry and is capped at the maximum given, see
    [execute]; jitter is left open by the spec and is not modelled. *)
Definition backoff_delay (opts : task_options) (retries : nat) : Z :=
  match retry_backoff opts with
  | None => 0
  | Some factor =>
      let delay := factor * 2 ^ Z.of_nat retries in
      match retry_backoff_max opts with
      | Some maximum => Z.min maximum delay
      | None => delay
      end
  end.

(** Modelled from the spec: one run of a task by the executor, missing from
    the sources. A body that returns is [Done]; an error of a class listed
    in [autoretry_for] sends the task back to the queue after the backoff
    delay, whatever the number of earlier retries; any other error marks
    the task [Failed], and it is not retried. *)
Definition execute (invoke : method -> M unit) (t : task) (retries : nat)
    (w : world) : outcome * world :=
  match run_task invoke t w with
  | (Ok _, w') => (Done, w')
  | (Raise e, w') =>
      if bool_decide (e ∈ autoretry_for (options_of t))
      then (Retrying (backoff_delay (options_of t) retries), w')
      else (Failed e, w')
  end.

(** ** The commit-age rule in the words of the specification *)

(** The call that [commit_pending] puts on the queue for a component. *)
Definition commit_task (pk : Z) : task :=
  perform_commit_task pk [PyStr "commit_pending"; PyNone].

(** The threshold in force for a component: the uniform one when the
    caller gives it, the component's own otherwise. *)
Definition threshold_hours (hours : option Z) (c : component) : Z :=
  default (commit_pending_age c) hours.

(** A component is due at time [now] when it has a recorded last change,
    that change is at least the threshold old, and it needs a commit. *)
Definition due (hours : option Z) (now : Z) (c : component) : Prop :=
  ∃ last_change,
    last_changed c = Some last_change
    ∧ timedelta_hours (threshold_hours hours c) <= now - last_change
    ∧ needs_commit c = true.

Definition dueb (hours : option Z) (now : Z) (c : component) : bool :=
  match last_changed c with
  | None => false
  | Some last_change =>
      bool_decide (timedelta_hours (threshold_hours hours c) <= now - last_change)
      && needs_commit c
  end.

(** The calls one scan is expected to add, the [n]-th row being examined at
    the [n]-th reading of the clock after [tick]. *)
Fixpoint due_tasks (hours : option Z) (clk : nat -> Z) (tick : nat)
    (rows : list (Z * component)) : list task :=
  match rows with
  | [] => []
  | row :: rest =>
      (if dueb hours (clk tick) row.2 then [commit_task row.1] else [])
      ++ due_tasks hours clk (S tick) rest
  end.

Fixpoint due_lines (hours : option Z) (clk : nat -> Z) (tick : nat)
    (rows : list (Z * component)) : list string :=
  match rows with
  | [] => []
  | row :: rest =>
      (if dueb hours (clk tick) row.2
       then ["Committing " +:+ component_str row.2] else [])
      ++ due_lines hours clk (S tick) rest
  end.

(** The world after a scan that read the clock [n] times, queued [tasks]
    and, when a logger was given, wrote [lines]. *)
Definition after_scan (n : nat) (tasks : list task) (lines : list string)
    (w : world) : world :=
  set_ticks (fun t => (t + n)%nat)
    (set_output (fun o => o ++ lines)
       (set_queue (fun q => q ++ tasks) w)).

Definition count_task (t : task) (q : list task) : nat :=
  length (filter (fun t' => t' = t) q).

(** The reason a queued commit carries: the first argument after the pk. *)
Definition reason_tag (t : task) : option pyval :=
  match t with
  | perform_commit_task _ (reason :: _) => Some reason
  | _ => None
  end.

(** ** The alert rule in the words of the specification *)

(** The alert set after one component was evaluated: each of the two
    alerts is made active when its counter exceeds the threshold and
    inactive otherwise. *)
Definition evaluate_alerts (threshold : Z) (a : gset (Z * string))
    (row : Z * component) : gset (Z * string) :=
  let a1 :=
    if bool_decide (count_missing row.2 > threshold)
    then {[ (row.1, "RepositoryOutdated") ]} ∪ a
    else a ∖ {[ (row.1, "RepositoryOutdated") ]} in
  if bool_decide (count_outgoing row.2 > threshold)
  then {[ (row.1, "RepositoryChanges") ]} ∪ a1
  else a1 ∖ {[ (row.1, "RepositoryChanges") ]}.

(** ** Index cleanup in the words of the specification *)

(** An index entry is live when the unit it refers to is in the store. *)
Definition live (w : world) (item : stored_fields) : Prop :=
  is_Some (units w !! item_pk item).

(** The partitions one cleanup visits: one per language, then the source. *)
Definition partitions (w : world) : list (option string) :=
  (Some <$> language_codes w) ++ [None].

(** What examining one entry does to the partition being cleaned. *)
Definition purge (w : world) (l : list stored_fields) (item : stored_fields)
    : list stored_fields :=
  if bool_decide (live w item) then l
  else filter (fun e => item_pk e ≠ item_pk item) l.

(** An entry survives a pass over [fields] when no examined entry without
    a unit has its pk. *)
Definition kept (w : world) (fields : list stored_fields) (e : stored_fields)
    : Prop :=
  Forall (fun item => live w item ∨ item_pk e ≠ item_pk item) fields.

(** ** The reaper's rule *)

(** Whether the sweep started [yesterday] seconds after the epoch removes
    the entry at [path]: it is a directory, it was not modified after
    [yesterday], and no component with a repository of its own has the
    path's project and component slugs. *)
Definition reapb (yesterday : Q) (path : string * string) (w : world) : bool :=
  match vcs_tree w !! path with
  | Some d =>
      is_dir d
      && negb (Qgtb (mtime d) yesterday)
      && negb (exists_ (matching_components path.1 path.2 w))
  | None => false
  end.

(** ** The auto-update modes *)

(** The three modes of [settings.AUTO_UPDATE], as the two membership
    tests of the source tell them apart: [perform_update] merges for
    ["full"] and [True]; [update_remotes] runs for these and for
    ["remote"] and [False]; every other value switches the sweep off. *)
Inductive auto_update_mode := FullMode | RemoteOnlyMode | DisabledMode.

Definition auto_update_mode_of (v : pyval) : auto_update_mode :=
  if py_in v [PyStr "full"; PyBool true] then FullMode
  else if py_in v [PyStr "remote"; PyBool false] then RemoteOnlyMode
  else DisabledMode.

(** ** Sample data *)

Definition acme : project := Project "acme".

Definition core : component :=
  Component 1 "core" "" false 24 (Some 0) true "acme/core" 10 11 3.

Definition docs : component :=
  Component 1 "docs" "" true 24 (Some 0) false "acme/docs" 10 0 0.

(** A small installation, ten days after the epoch: project [acme] with
    the component [core] (its own repository, changed at the epoch, with
    pending changes, 11 missing commits) and the linked component [docs]. *)
Definition sample (auto_update : pyval) (days : option Z) : world :=
  World auto_update days days
    {[ 7 ]}
    {[ 1 := acme ]}
    {[ 1 := core; 2 := docs ]}
    {[ 10 := Translation 1; 11 := Translation 1; 12 := Translation 2 ]}
    {[ 100 := Unit 10 1000; 101 := Unit 11 1000 ]}
    {[ 1 := Suggestion 0; 2 := Suggestion 800000000000;
       3 := Suggestion 604800000000 ]}
    {[ 1 := Comment 0; 2 := Comment 800000000000 ]}
    [] ["cs"]
    ∅
    {[ Some "cs" := [StoredFields 101; StoredFields 555];
       None := [StoredFields 100] ]}
    {[ ("acme", "core") := Dirent true 691200 false;
       ("acme", "gone") := Dirent true 691200 true;
       ("acme", "fresh") := Dirent true 860400 false;
       ("acme", "edge") := Dirent true 777600 false;
       ("acme", "docs") := Dirent true 691200 false;
       ("acme", "README") := Dirent false 691200 false ]}
    [] []
    (fun n => 864000000000 + Z.of_nat n) 0.

Definition sample_world : world := sample (PyStr "remote") None.

(** Sample collaborators. *)

(** Every call succeeds and leaves the world alone. *)
Definition quiet : method -> M unit := fun _ => ret tt.

(** Updating or loading a component finds a file it cannot parse: the
    failure is stored as an alert of the component and raised. *)
Definition parse_failure : method -> M unit :=
  fun m =>
    match m with
    | do_update (ComponentRef pk)
    | update_remote_branch (ComponentRef pk)
    | create_translations pk _ =>
        add_alert pk "ParseError" ;;; raise FileParseError
    | _ => ret tt
    end.

(** The repository lock is held by someone else. *)
Definition lock_busy : method -> M unit := fun _ => raise Timeout.

(** [sample_world] once the parse failure of component 1 is stored. *)
Definition sample_world_alerted : world :=
  set_alerts (fun a => {[ (1, "ParseError") ]} ∪ a) sample_world.

(** ** Source cleanup on the table of units *)

(** The ids [cleanup_sources] collects for a component: the [id_hash] of
    every unit of the component's translations other than the source. *)
Definition source_ids_of (tr : gmap Z translation) (row : Z * component)
    (U : gmap Z unit_row) : list Z :=
  remove_dups
    (id_hash <$>
       filter (fun u : unit_row =>
                 component_id <$> tr !! translation_id u = Some row.1
                 ∧ translation_id u ≠ source_translation row.2)
              (map_to_list U).*2).

(** What the pass for one component does to the table of units. *)
Definition purge_sources (tr : gmap Z translation) (row : Z * component)
    (U : gmap Z unit_row) : gmap Z unit_row :=
  filter (fun ku : Z * unit_row =>
            ¬ (translation_id ku.2 = source_translation row.2
               ∧ id_hash ku.2 ∉ source_ids_of tr row U))
         U.

(** The components of a project that have no template. *)
Definition template_less (project_pk : Z) (w : world) : list (Z * component) :=
  filter (fun kc : Z * component =>
            project_id kc.2 = project_pk ∧ template kc.2 = "")
         (map_to_list (components w)).

(** A unit of a translation of the component other than its source. *)
Definition reference_unit (tr : gmap Z translation) (row : Z * component)
    (u : unit_row) : Prop :=
  component_id <$> tr !! translation_id u = Some row.1
  ∧ translation_id u ≠ source_translation row.2.

(** A source unit of the component whose [id_hash] no unit of another
    translation of the component has. *)
Definition orphan (tr : gmap Z translation) (U : gmap Z unit_row)
    (row : Z * component) (u : unit_row) : Prop :=
  translation_id u = source_translation row.2
  ∧ ¬ ∃ k' u', U !! k' = Some u' ∧ reference_unit tr row u'
               ∧ id_hash u' = id_hash u.

(** The source translation of each component visited is a translation of
    that component. *)
Definition sources_consistent (project_pk : Z) (w : world) : Prop :=
  ∀ cpk c,
    components w !! cpk = Some c ->
    project_id c = project_pk -> template c = "" ->
    component_id <$> translations w !! source_translation c = Some cpk.

(** One component with a source translation (10) and one other translation
    (11); unit 100 has a counterpart in 11, unit 102 has none. *)
Definition sources_world : world :=
  World (PyStr "none") None None ∅
    {[ 1 := acme ]}
    {[ 1 := core ]}
    {[ 10 := Translation 1; 11 := Translation 1 ]}
    {[ 100 := Unit 10 1000; 101 := Unit 11 1000; 102 := Unit 10 2000 ]}
    ∅ ∅ [] [] ∅ ∅ ∅ [] []
    (fun n => Z.of_nat n) 0.

(** A unit of the source translation of one of the [rows]. *)
Definition is_source (rows : list (Z * component)) (u : unit_row) : Prop :=
  exists row, row ∈ rows /\ translation_id u = source_translation row.2.

(** What holds of the table of units between two passes of one run over
    [rows] that started from [U0]: nothing was added, and only source
    units were taken away. *)
Definition between_passes (rows : list (Z * component))
    (U0 U : gmap Z unit_row) : Prop :=
  (forall k u, U !! k = Some u -> U0 !! k = Some u)
  /\ (forall k u, U0 !! k = Some u -> ~ is_source rows u -> U !! k = Some u).

(** ** cleanup_suggestions *)

(** What the task reads of a suggestion and of the unit it belongs to. *)
Record suggestion_text := SuggestionText {
  suggestion_unit : Z;             (* ForeignKey(Unit) *)
  suggestion_target : string
}.

Record unit_text := UnitText {
  unit_target : string;
  unit_translated : bool           (* unit.translated *)
}.

Global Instance suggestion_text_eq_dec : EqDecision suggestion_text.
Proof. solve_decision. Defined.

(** The tables the task works on; [store_log] holds the ids of the
    suggestions whose removal was logged, oldest first. *)
Record suggestion_store := SuggestionStore {
  store_units : gmap Z unit_text;
  store_suggestions : gmap Z suggestion_text;
  store_log : list Z
}.

Section CleanupSuggestions.

(** How the database compares two texts in a filter: the source notes that
    MySQL compares strings case-insensitively. *)
Variable collate : string -> string.

(** [suggestion.delete_log(anonymous_user, change=...)], which lives in the
    [Suggestion] model. *)
Variable delete_log : Z -> suggestion_store -> suggestion_store.

(** [Suggestion.objects.filter(unit=..., target=...).exclude(id=...)] *)
Definition other_suggestions (id : Z) (s : suggestion_text)
    (st : suggestion_store) : list (Z * suggestion_text) :=
  filter (fun ks : Z * suggestion_text =>
            suggestion_unit ks.2 = suggestion_unit s
            ∧ collate (suggestion_target ks.2) = collate (suggestion_target s)
            ∧ ks.1 ≠ id)
         (map_to_list (store_suggestions st)).

(** [for other in sugs: if other.target == suggestion.target: ...; break] *)
Fixpoint delete_if_repeated (id : Z) (target : string)
    (sugs : list (Z * suggestion_text)) (st : suggestion_store)
    : suggestion_store :=
  match sugs with
  | [] => st
  | other :: rest =>
      if bool_decide (suggestion_target other.2 = target)
      then delete_log id st
      else delete_if_repeated id target rest st
  end.

(** The body of the loop over the suggestions. *)
Definition cleanup_suggestions_body (row : Z * suggestion_text)
    (st : suggestion_store) : result unit * suggestion_store :=
  match store_units st !! suggestion_unit row.2 with
  | None => (Raise (OtherError "Unit.DoesNotExist"), st)
  | Some unit =>
      if bool_decide (unit_target unit = suggestion_target row.2)
         && unit_translated unit
      then (Ok tt, delete_log row.1 st)
      else
        let sugs := other_suggestions row.1 row.2 st in
        (Ok tt, delete_if_repeated row.1 (suggestion_target row.2) sugs st)
  end.

Fixpoint cleanup_suggestions_loop (rows : list (Z * suggestion_text))
    (st : suggestion_store) : result unit * suggestion_store :=
  match rows with
  | [] => (Ok tt, st)
  | row :: rest =>
      match cleanup_suggestions_body row st with
      | (Ok _, st') => cleanup_suggestions_loop rest st'
      | (Raise e, st') => (Raise e, st')
      end
  end.

Definition cleanup_suggestions (st : suggestion_store)
    : result unit * suggestion_store :=
  cleanup_suggestions_loop (map_to_list (store_suggestions st)) st.

End CleanupSuggestions.

(** A [delete_log] that removes the suggestion and logs its id. *)
Definition delete_and_log (id : Z) (st : suggestion_store) : suggestion_store :=
  SuggestionStore (store_units st) (delete id (store_suggestions st))
    (store_log st ++ [id]).

(** What the properties below ask of [delete_log]: it removes that
    suggestion, and leaves the other suggestions and the units alone. *)
Definition deletes_suggestion
    (delete_log : Z -> suggestion_store -> suggestion_store) : Prop :=
  forall id st,
    store_suggestions (delete_log id st) = delete id (store_suggestions st)
    /\ store_units (delete_log id st) = store_units st.

(** Every suggestion belongs to a unit that exists. *)
Definition units_present (st : suggestion_store) : Prop :=
  forall id s, store_suggestions st !! id = Some s ->
    is_Some (store_units st !! suggestion_unit s).

(** The suggestion repeats the translation its unit already has. *)
Definition same_as_translation (units : gmap Z unit_text) (s : suggestion_text)
    : Prop :=
  exists u, units !! suggestion_unit s = Some u
            /\ unit_target u = suggestion_target s
            /\ unit_translated u = true.

(** Unit 1 is translated as "Ahoj"; suggestion 1 repeats that translation,
    suggestions 2 and 3 say the same, suggestion 4 stands alone and
    differs from 2 and 3 by case only. *)
Definition sample_store : suggestion_store :=
  SuggestionStore
    {[ 1 := UnitText "Ahoj" true; 2 := UnitText "" false ]}
    {[ 1 := SuggestionText 1 "Ahoj";
       2 := SuggestionText 2 "Nazdar";
       3 := SuggestionText 2 "Nazdar";
       4 := SuggestionText 2 "nazdar" ]}
    [].

(** The cleanup has a reason to remove suggestion [id]: it repeats the
    translation of its unit, or another suggestion says the same for the
    same unit. *)
Definition removable (st : suggestion_store) (id : Z) (s : suggestion_text)
    : Prop :=
  same_as_translation (store_units st) s
  \/ exists j, j <> id /\ store_suggestions st !! j = Some s.

(** ** setup_periodic_tasks *)

Inductive weekday :=
| monday | tuesday | wednesday | thursday | friday | saturday | sunday.

Global Instance weekday_eq_dec : EqDecision weekday.
Proof. solve_decision. Defined.

(** A schedule is a number of seconds between runs or a [crontab]; a
    [crontab] field that is not given matches every value. *)
Inductive schedule :=
| every (seconds : Z)
| crontab (hour minute : Z) (day_of_week : option weekday).

(** [<task>.s()]: the task with no arguments bound, so that its defaults
    apply when it runs. *)
Inductive signature :=
| queued (t : task)
| component_alerts_s
| cleanup_suggestions_s
| optimize_fulltext_s.

Record periodic_task := PeriodicTask {
  periodic_schedule : schedule;
  periodic_signature : signature;
  periodic_name : string
}.

(** [sender.add_periodic_task(schedule, signature, name=name)]: the sender
    is the list of the registrations made on it, in the order of the calls. *)
Definition add_periodic_task (s : schedule) (sig : signature) (name : string)
    (sender : list periodic_task) : list periodic_task :=
  sender ++ [PeriodicTask s sig name].

Definition setup_periodic_tasks (sender : list periodic_task)
    : list periodic_task :=
  let sender :=
    add_periodic_task (every 3600)
      (queued (commit_pending_task None None false)) "commit-pending" sender in
  let sender :=
    add_periodic_task (crontab 3 30 None)
      (queued update_remotes_task) "update-remotes" sender in
  let sender :=
    add_periodic_task (every (3600 * 24))
      (queued (repository_alerts_task None)) "repository-alerts" sender in
  let sender :=
    add_periodic_task (every (3600 * 24))
      component_alerts_s "component-alerts" sender in
  let sender :=
    add_periodic_task (every (3600 * 24))
      cleanup_suggestions_s "suggestions-cleanup" sender in
  let sender :=
    add_periodic_task (every (3600 * 24))
      (queued cleanup_stale_repos_task) "cleanup-stale-repos" sender in
  let sender :=
    add_periodic_task (every (3600 * 24))
      (queued cleanup_old_suggestions_task) "cleanup-old-suggestions" sender in
  let sender :=
    add_periodic_task (every (3600 * 24))
      (queued cleanup_old_comments_task) "cleanup-old-comments" sender in
  let sender :=
    add_periodic_task (crontab 2 30 (Some saturday))
      (queued cleanup_fulltext_task) "fulltext-cleanup" sender in
  add_periodic_task (crontab 2 30 (Some sunday))
    optimize_fulltext_s "fulltext-optimize" sender.

(** A minute of the week. *)
Record moment := Moment {
  moment_day : weekday;
  moment_hour : Z;
  moment_minute : Z
}.

(** Whether a [crontab] schedule is due at a moment; an interval has no
    fixed moments. *)
Definition crontab_due (s : schedule) (m : moment) : bool :=
  match s with
  | every _ => false
  | crontab hour minute day_of_week =>
      bool_decide (moment_hour m = hour)
      && bool_decide (moment_minute m = minute)
      && match day_of_week with
         | None => true
         | Some d => bool_decide (moment_day m = d)
         end
  end.

(** The schedule registered under a name. *)
Definition schedule_named (name : string) (table : list periodic_task)
    : option schedule :=
  periodic_schedule <$>
    head (filter (fun p => periodic_name p = name) table).

(** * Properties *)

(** ** The commit-age scheduler *)

Lemma due_dueb hours now c : due hours now c <-> dueb hours now c = true.
Proof.
  unfold due, dueb. destruct (last_changed c) as [lc|].
  - rewrite andb_true_iff, bool_decide_eq_true. split.
    + intros (x & [= <-] & H1 & H2). done.
    + intros [H1 H2]. eauto.
  - split; [intros (x & [=] & _) | done].
Qed.

(** Two worlds with the same fields are the same world. *)
Lemma world_eq (w1 w2 : world) :
  AUTO_UPDATE w1 = AUTO_UPDATE w2 ->
  SUGGESTION_CLEANUP_DAYS w1 = SUGGESTION_CLEANUP_DAYS w2 ->
  COMMENT_CLEANUP_DAYS w1 = COMMENT_CLEANUP_DAYS w2 ->
  users w1 = users w2 ->
  projects w1 = projects w2 ->
  components w1 = components w2 ->
  translations w1 = translations w2 ->
  units w1 = units w2 ->
  suggestions w1 = suggestions w2 ->
  comments w1 = comments w2 ->
  changes w1 = changes w2 ->
  language_codes w1 = language_codes w2 ->
  alerts w1 = alerts w2 ->
  fulltext w1 = fulltext w2 ->
  vcs_tree w1 = vcs_tree w2 ->
  queue w1 = queue w2 ->
  output w1 = output w2 ->
  clock w1 = clock w2 ->
  ticks w1 = ticks w2 ->
  w1 = w2.
Proof.
  destruct w1, w2; cbn. intros. subst. reflexivity.
Qed.

(** Compare two worlds field by field; what is left are the fields the
    two sides spell differently. *)
Ltac world_ext :=
  apply world_eq; try reflexivity; cbn;
  rewrite ?app_nil_r, ?Nat.add_0_r, ?Nat.add_1_r; try reflexivity.

Lemma after_scan_after_scan n1 t1 l1 n2 t2 l2 w :
  after_scan n2 t2 l2 (after_scan n1 t1 l1 w)
  = after_scan (n1 + n2) (t1 ++ t2) (l1 ++ l2) w.
Proof.
  world_ext.
  - symmetry. apply app_assoc.
  - symmetry. apply app_assoc.
  - symmetry. apply Nat.add_assoc.
Qed.

Lemma clock_after_scan n t l w : clock (after_scan n t l w) = clock w.
Proof. reflexivity. Qed.

Lemma ticks_after_scan n t l w : ticks (after_scan n t l w) = (ticks w + n)%nat.
Proof. reflexivity. Qed.

Lemma after_scan_nothing w : after_scan 0 [] [] w = w.
Proof. world_ext. Qed.

Lemma after_scan_skip w : after_scan 1 [] [] w = set_ticks S w.
Proof. world_ext. Qed.

Lemma commit_pending_body_spec hours logger pk c w :
  commit_pending_body hours logger (pk, c) w =
  (Ok tt,
   after_scan 1
     (if dueb hours (clock w (ticks w)) c then [commit_task pk] else [])
     (if logger then due_lines hours (clock w) (ticks w) [(pk, c)] else [])
     w).
Proof.
  unfold commit_pending_body, bind at 1, timezone_now.
  cbn [fst snd due_lines]. unfold dueb, threshold_hours.
  destruct (last_changed c) as [lc|].
  2:{ unfold ret. f_equal. destruct logger; world_ext. }
  assert (Hage : bool_decide
            (lc > clock w (ticks w) - timedelta_hours (default (commit_pending_age c) hours))
          = negb (bool_decide
               (timedelta_hours (default (commit_pending_age c) hours)
                <= clock w (ticks w) - lc))).
  { repeat case_bool_decide; try reflexivity; lia. }
  assert (Hage' : bool_decide
            (lc > match hours with
                  | Some h => clock w (ticks w) - timedelta_hours h
                  | None => clock w (ticks w) - timedelta_hours (commit_pending_age c)
                  end)
          = negb (bool_decide
               (timedelta_hours (default (commit_pending_age c) hours)
                <= clock w (ticks w) - lc))).
  { rewrite <- Hage. destruct hours; reflexivity. }
  destruct hours as [h|]; cbn [default] in *; rewrite Hage'; clear Hage Hage'.
  all: destruct (bool_decide (_ <= _)); cbn [negb andb];
    [|unfold ret; f_equal; destruct logger; world_ext].
  all: destruct (needs_commit c); cbn [negb];
    [|unfold ret; f_equal; destruct logger; world_ext].
  all: unfold bind, log_line, delay, modify, ret; destruct logger;
    f_equal; world_ext.
Qed.

Lemma commit_pending_loop hours logger rows : forall w,
  for_each rows (commit_pending_body hours logger) w =
  (Ok tt,
   after_scan (length rows) (due_tasks hours (clock w) (ticks w) rows)
     (if logger then due_lines hours (clock w) (ticks w) rows else []) w).
Proof.
  induction rows as [|[pk c] rows IH]; intros w.
  - cbn [for_each length due_tasks due_lines]. unfold ret.
    destruct logger; rewrite after_scan_nothing; reflexivity.
  - cbn [for_each]. unfold bind at 1.
    rewrite commit_pending_body_spec, IH, after_scan_after_scan.
    rewrite clock_after_scan, ticks_after_scan, Nat.add_1_r.
    cbn [length due_tasks due_lines fst snd Nat.add].
    destruct logger; rewrite ?app_nil_r; reflexivity.
Qed.

Lemma commit_task_inj pk pk' : commit_task pk = commit_task pk' -> pk = pk'.
Proof. unfold commit_task. congruence. Qed.

Lemma elem_of_due_tasks hours clk rows : forall tick t,
  t ∈ due_tasks hours clk tick rows <->
  exists i pk c, rows !! i = Some (pk, c)
                 /\ dueb hours (clk (tick + i)%nat) c = true
                 /\ t = commit_task pk.
Proof.
  induction rows as [|[pk c] rows IH]; intros tick t; simpl.
  - split; [intros H; inversion H | intros (i & ? & ? & H & _); destruct i; done].
  - rewrite elem_of_app, IH. split.
    + intros [H | (i & pk' & c' & H1 & H2 & H3)].
      * destruct (dueb hours (clk tick) c) eqn:E; [|inversion H].
        apply list_elem_of_singleton in H. exists 0%nat, pk, c.
        rewrite Nat.add_0_r. done.
      * exists (S i), pk', c'. rewrite <- Nat.add_succ_comm. done.
    + intros ([|i] & pk' & c' & H1 & H2 & H3).
      * left. simpl in H1. injection H1 as <- <-. rewrite Nat.add_0_r in H2.
        rewrite H2. subst. apply list_elem_of_singleton. done.
      * right. exists i, pk', c'. rewrite Nat.add_succ_comm. done.
Qed.

Lemma NoDup_fst_lookup {A} (rows : list (Z * A)) i j pk c c' :
  NoDup rows.*1 -> rows !! i = Some (pk, c) -> rows !! j = Some (pk, c') ->
  i = j /\ c = c'.
Proof.
  intros Hnd Hi Hj.
  assert (i = j) as ->.
  { eapply NoDup_lookup; [exact Hnd| |]; rewrite list_lookup_fmap.
    - rewrite Hi; reflexivity.
    - rewrite Hj; reflexivity. }
  split; congruence.
Qed.

Lemma due_tasks_iff hours clk tick rows i pk c :
  NoDup rows.*1 -> rows !! i = Some (pk, c) ->
  commit_task pk ∈ due_tasks hours clk tick rows <->
  dueb hours (clk (tick + i)%nat) c = true.
Proof.
  intros Hnd Hi. rewrite elem_of_due_tasks. split.
  - intros (j & pk' & c' & Hj & Hd & Heq).
    apply commit_task_inj in Heq as <-.
    destruct (NoDup_fst_lookup _ _ _ _ _ _ Hnd Hi Hj) as [-> ->]. done.
  - intros Hd. exists i, pk, c. done.
Qed.

Lemma count_task_app t q1 q2 :
  count_task t (q1 ++ q2) = (count_task t q1 + count_task t q2)%nat.
Proof. unfold count_task. rewrite filter_app, length_app. reflexivity. Qed.

Lemma count_task_zero t q : t ∉ q -> count_task t q = 0%nat.
Proof.
  unfold count_task. intros H.
  destruct (filter (λ t', t' = t) q) as [|x l] eqn:E; [done|].
  exfalso. assert (Hx : x ∈ filter (λ t', t' = t) q) by (rewrite E; left).
  apply list_elem_of_filter in Hx as [-> Hx]. done.
Qed.

Lemma count_task_singleton t : count_task t [t] = 1%nat.
Proof. unfold count_task. rewrite filter_cons_True by done. reflexivity. Qed.

Lemma due_tasks_count hours clk rows : forall tick i pk c,
  NoDup rows.*1 -> rows !! i = Some (pk, c) ->
  count_task (commit_task pk) (due_tasks hours clk tick rows) =
  if dueb hours (clk (tick + i)%nat) c then 1%nat else 0%nat.
Proof.
  induction rows as [|[pk0 c0] rows IH]; intros tick i pk c Hnd Hi; [done|].
  simpl in Hnd. apply NoDup_cons in Hnd as [Hnotin Hnd].
  simpl. rewrite count_task_app. destruct i as [|i]; simpl in Hi.
  - injection Hi as -> ->. rewrite Nat.add_0_r.
    rewrite (count_task_zero _ (due_tasks _ _ _ rows)).
    + destruct (dueb hours (clk tick) c);
        [rewrite count_task_singleton|]; reflexivity.
    + rewrite elem_of_due_tasks. intros (j & pk' & c' & Hj & _ & Heq).
      apply commit_task_inj in Heq as <-. apply Hnotin.
      apply list_elem_of_fmap. exists (pk, c'). split; [done|].
      eapply list_elem_of_lookup_2; eauto.
  - rewrite (IH (S tick) i pk c Hnd Hi), <- Nat.add_succ_comm.
    rewrite count_task_zero; [reflexivity|].
    destruct (dueb hours (clk tick) c0); [|apply not_elem_of_nil].
    intros H%list_elem_of_singleton%commit_task_inj. subst pk0. apply Hnotin.
    apply list_elem_of_fmap. exists (pk, c). split; [done|].
    eapply list_elem_of_lookup_2; eauto.
Qed.


Lemma commit_pending_components_NoDup pks w :
  NoDup (commit_pending_components pks w).*1.
Proof.
  destruct pks as [pks|]; simpl.
  - apply NoDup_fmap_fst; [|apply NoDup_remove_dups].
    intros pk c1 c2 H1 H2. unfold distinct in *.
    apply elem_of_remove_dups, list_elem_of_omap in H1 as ([k1 t1] & _ & H1).
    apply elem_of_remove_dups, list_elem_of_omap in H2 as ([k2 t2] & _ & H2).
    simpl in *. case_bool_decide; [|done]. case_bool_decide; [|done].
    destruct (components w !! component_id t1) eqn:E1; [|done].
    destruct (components w !! component_id t2) eqn:E2; [|done].
    simpl in *. congruence.
  - apply NoDup_fst_map_to_list.
Qed.

Lemma commit_pending_run hours pks logger w :
  commit_pending hours pks logger w =
  (Ok tt,
   after_scan (length (commit_pending_components pks w))
     (due_tasks hours (clock w) (ticks w) (commit_pending_components pks w))
     (if logger
      then due_lines hours (clock w) (ticks w) (commit_pending_components pks w)
      else [])
     w).
Proof.
  unfold commit_pending, bind, gets. apply commit_pending_loop.
Qed.

(** C1: a scanned component gets a commit task queued exactly when it is
    due at the moment it is examined: it has a recorded last change, that
    change is at least the threshold old (the caller's uniform [hours] when
    given, else the component's own [commit_pending_age]) and
    [needs_commit()] holds. A component that needs no commit gets none
    whatever its age, and a component that is not due (so also one with no
    recorded change) only has the clock read. *)
Theorem commit_pending_enqueues_iff_due
    (hours : option Z) (pks : option (list Z)) (logger : bool) (w : world)
    (i : nat) (pk : Z) (c : component) :
  commit_pending_components pks w !! i = Some (pk, c) ->
  exists n tasks lines,
    commit_pending hours pks logger w = (Ok tt, after_scan n tasks lines w)
    /\ ((exists args, perform_commit_task pk args ∈ tasks)
        <-> due hours (clock w (ticks w + i)%nat) c)
    /\ (needs_commit c = false ->
        forall args, perform_commit_task pk args ∉ tasks)
    /\ (last_changed c = None ->
        forall args, perform_commit_task pk args ∉ tasks)
    /\ (forall w0, ~ due hours (clock w0 (ticks w0)) c ->
        commit_pending_body hours logger (pk, c) w0 = (Ok tt, set_ticks S w0)).
Proof.
  intros Hi. pose proof (commit_pending_components_NoDup pks w) as Hnd.
  set (rows := commit_pending_components pks w) in *.
  assert (Hiff : (exists args, perform_commit_task pk args
                                 ∈ due_tasks hours (clock w) (ticks w) rows)
                 <-> due hours (clock w (ticks w + i)%nat) c).
  { rewrite due_dueb, <- (due_tasks_iff hours (clock w) (ticks w) rows i pk c Hnd Hi).
    split; [|intros H; eexists; exact H].
    intros [args H]. pose proof H as H'.
    apply elem_of_due_tasks in H' as (j & pk' & c' & _ & _ & Heq).
    unfold commit_task in Heq. injection Heq as -> ->. exact H. }
  exists (length rows), (due_tasks hours (clock w) (ticks w) rows),
    (if logger then due_lines hours (clock w) (ticks w) rows else []).
  split; [apply commit_pending_run|]. split; [exact Hiff|]. split; [|split].
  - intros Hn args Hin. assert (Hd : due hours (clock w (ticks w + i)%nat) c)
      by (apply Hiff; eauto).
    destruct Hd as (lc & _ & _ & Hd). congruence.
  - intros Hn args Hin. assert (Hd : due hours (clock w (ticks w + i)%nat) c)
      by (apply Hiff; eauto).
    destruct Hd as (lc & Hd & _). congruence.
  - intros w0 Hnd0. rewrite commit_pending_body_spec. simpl.
    rewrite due_dueb in Hnd0. apply not_true_is_false in Hnd0. rewrite Hnd0.
    destruct logger; simpl; rewrite after_scan_skip; reflexivity.
Qed.

Lemma commit_pending_enqueues_iff_due_witness :
  exists n tasks lines,
    commit_pending None (Some [10; 11]) true sample_world
      = (Ok tt, after_scan n tasks lines sample_world)
    /\ ((exists args, perform_commit_task 1 args ∈ tasks)
        <-> due None (clock sample_world (ticks sample_world + 0)%nat) core)
    /\ (needs_commit core = false ->
        forall args, perform_commit_task 1 args ∉ tasks)
    /\ (last_changed core = None ->
        forall args, perform_commit_task 1 args ∉ tasks)
    /\ (forall w0, ~ due None (clock w0 (ticks w0)) core ->
        commit_pending_body None true (1, core) w0 = (Ok tt, set_ticks S w0)).
Proof.
  apply (commit_pending_enqueues_iff_due None (Some [10; 11]) true sample_world
           0%nat 1 core).
  vm_compute. reflexivity.
Defined.

(** C9 (as amended): a component that is due in a scan gets exactly one
    commit task queued, also when several of the candidate translation ids
    belong to it; the task is only queued, nothing but the queue, the log
    and the clock changes; and the task is
    [perform_commit(pk, "commit_pending", None)]. *)
Theorem commit_pending_enqueues_once
    (hours : option Z) (pks : option (list Z)) (logger : bool) (w : world)
    (i : nat) (pk : Z) (c : component) :
  commit_pending_components pks w !! i = Some (pk, c) ->
  due hours (clock w (ticks w + i)%nat) c ->
  exists n tasks lines,
    commit_pending hours pks logger w = (Ok tt, after_scan n tasks lines w)
    /\ count_task (perform_commit_task pk [PyStr "commit_pending"; PyNone]) tasks
       = 1%nat
    /\ (forall args, perform_commit_task pk args ∈ tasks ->
        args = [PyStr "commit_pending"; PyNone])
    /\ components (after_scan n tasks lines w) = components w
    /\ units (after_scan n tasks lines w) = units w.
Proof.
  intros Hi Hd. pose proof (commit_pending_components_NoDup pks w) as Hnd.
  set (rows := commit_pending_components pks w) in *.
  exists (length rows), (due_tasks hours (clock w) (ticks w) rows),
    (if logger then due_lines hours (clock w) (ticks w) rows else []).
  split; [apply commit_pending_run|]. split; [|split; [|split; reflexivity]].
  - change (perform_commit_task pk [PyStr "commit_pending"; PyNone])
      with (commit_task pk).
    rewrite (due_tasks_count hours (clock w) rows (ticks w) i pk c Hnd Hi).
    apply due_dueb in Hd. rewrite Hd. reflexivity.
  - intros args Hin.
    apply elem_of_due_tasks in Hin as (j & pk' & c' & _ & _ & Heq).
    unfold commit_task in Heq. congruence.
Qed.

Lemma commit_pending_enqueues_once_witness :
  exists n tasks lines,
    commit_pending None (Some [10; 11]) false sample_world
      = (Ok tt, after_scan n tasks lines sample_world)
    /\ count_task (perform_commit_task 1 [PyStr "commit_pending"; PyNone]) tasks
       = 1%nat
    /\ (forall args, perform_commit_task 1 args ∈ tasks ->
        args = [PyStr "commit_pending"; PyNone])
    /\ components (after_scan n tasks lines sample_world) = components sample_world
    /\ units (after_scan n tasks lines sample_world) = units sample_world.
Proof.
  apply (commit_pending_enqueues_once None (Some [10; 11]) false sample_world
           0%nat 1 core).
  - vm_compute. reflexivity.
  - exists 0. vm_compute. repeat split; congruence.
Defined.

(** C9 (as stated) fails on the reason tag: the one task queued for a due
    component carries "commit_pending", and no queued task carries
    "periodic-commit". *)
Lemma commit_pending_reason_tag_counterexample :
  commit_pending_components None sample_world !! 1%nat = Some (1, core)
  /\ due None (clock sample_world (ticks sample_world + 1)%nat) core
  /\ queue (commit_pending None None false sample_world).2
     = [perform_commit_task 1 [PyStr "commit_pending"; PyNone]]
  /\ ~ (exists t, t ∈ queue (commit_pending None None false sample_world).2
                  /\ reason_tag t = Some (PyStr "periodic-commit")).
Proof.
  split; [vm_compute; reflexivity|].
  split; [exists 0; vm_compute; repeat split; congruence|].
  assert (Hq : queue (commit_pending None None false sample_world).2
               = [perform_commit_task 1 [PyStr "commit_pending"; PyNone]])
    by (vm_compute; reflexivity).
  split; [exact Hq|]. rewrite Hq. intros (t & Hin & Htag).
  apply list_elem_of_singleton in Hin. subst t. simpl in Htag. discriminate.
Qed.

(** ** The alert engine *)

Lemma elem_of_with_repo w pk c :
  (pk, c) ∈ with_repo w <-> components w !! pk = Some c /\ is_repo_link c = false.
Proof.
  unfold with_repo. rewrite list_elem_of_filter, elem_of_map_to_list. simpl. tauto.
Qed.

Lemma with_repo_NoDup w : NoDup (with_repo w).*1.
Proof.
  apply NoDup_fmap_fst.
  - intros pk c1 c2 [H1 _]%elem_of_with_repo [H2 _]%elem_of_with_repo. congruence.
  - apply NoDup_filter, NoDup_map_to_list.
Qed.

Lemma set_alerts_set_alerts f g w :
  set_alerts f (set_alerts g w) = set_alerts (fun a => f (g a)) w.
Proof. destruct w; reflexivity. Qed.

Lemma set_alerts_id w : set_alerts (fun a => a) w = w.
Proof. destruct w; reflexivity. Qed.

Lemma repository_alerts_body_spec threshold row w :
  repository_alerts_body threshold row w =
  (Ok tt, set_alerts (fun a => evaluate_alerts threshold a row) w).
Proof.
  unfold repository_alerts_body, evaluate_alerts, bind, add_alert, delete_alert, modify.
  repeat case_bool_decide; simpl; rewrite set_alerts_set_alerts; reflexivity.
Qed.

Lemma repository_alerts_loop threshold rows : forall w,
  for_each rows (repository_alerts_body threshold) w =
  (Ok tt, set_alerts (fun a => foldl (evaluate_alerts threshold) a rows) w).
Proof.
  induction rows as [|row rows IH]; intros w; simpl.
  - unfold ret. rewrite set_alerts_id. reflexivity.
  - unfold bind at 1. rewrite repository_alerts_body_spec, IH, set_alerts_set_alerts.
    reflexivity.
Qed.

Lemma elem_of_add_same (x : Z * string) (X : gset (Z * string)) :
  x ∈ {[ x ]} ∪ X.
Proof. apply elem_of_union. left. apply elem_of_singleton. reflexivity. Qed.

Lemma elem_of_add_ne (x y : Z * string) (X : gset (Z * string)) :
  x <> y -> x ∈ {[ y ]} ∪ X <-> x ∈ X.
Proof.
  intros Hne. rewrite elem_of_union, elem_of_singleton. tauto.
Qed.

Lemma not_elem_of_remove_same (x : Z * string) (X : gset (Z * string)) :
  x ∉ X ∖ {[ x ]}.
Proof. rewrite elem_of_difference, elem_of_singleton. tauto. Qed.

Lemma elem_of_remove_ne (x y : Z * string) (X : gset (Z * string)) :
  x <> y -> x ∈ X ∖ {[ y ]} <-> x ∈ X.
Proof.
  intros Hne. rewrite elem_of_difference, elem_of_singleton. tauto.
Qed.

Lemma evaluate_alerts_other threshold a row pk name :
  pk <> row.1 ->
  (pk, name) ∈ evaluate_alerts threshold a row <-> (pk, name) ∈ a.
Proof.
  intros Hne. unfold evaluate_alerts.
  assert (Hne' : forall s, (pk, name) <> (row.1, s)) by congruence.
  repeat case_bool_decide;
    repeat first [ rewrite elem_of_add_ne by apply Hne'
                 | rewrite elem_of_remove_ne by apply Hne' ];
    reflexivity.
Qed.

Lemma foldl_evaluate_alerts_other threshold rows : forall a pk name,
  pk ∉ rows.*1 ->
  (pk, name) ∈ foldl (evaluate_alerts threshold) a rows <-> (pk, name) ∈ a.
Proof.
  induction rows as [|row rows IH]; intros a pk name Hnotin; simpl; [done|].
  simpl in Hnotin. apply not_elem_of_cons in Hnotin as [Hne Hnotin].
  rewrite IH by done. apply evaluate_alerts_other. done.
Qed.

Lemma foldl_evaluate_alerts_row threshold rows : forall a pk c,
  NoDup rows.*1 -> (pk, c) ∈ rows ->
  ((pk, "RepositoryOutdated") ∈ foldl (evaluate_alerts threshold) a rows
   <-> count_missing c > threshold)
  /\ ((pk, "RepositoryChanges") ∈ foldl (evaluate_alerts threshold) a rows
      <-> count_outgoing c > threshold).
Proof.
  induction rows as [|row rows IH]; intros a pk c Hnd Hin; [inversion Hin|].
  simpl in Hnd. apply NoDup_cons in Hnd as [Hnotin Hnd]. simpl.
  apply elem_of_cons in Hin as [<- | Hin].
  - rewrite !foldl_evaluate_alerts_other by done.
    unfold evaluate_alerts; cbn [fst snd].
    assert (Hoc : (pk, "RepositoryOutdated") <> (pk, "RepositoryChanges"))
      by congruence.
    assert (Hco : (pk, "RepositoryChanges") <> (pk, "RepositoryOutdated"))
      by congruence.
    case_bool_decide as Hm; case_bool_decide as Ho;
      rewrite ?(elem_of_add_ne _ _ _ Hoc), ?(elem_of_remove_ne _ _ _ Hoc);
      split; split; intros Hx; try done; try apply elem_of_add_same;
      try (apply not_elem_of_remove_same in Hx; done).
  - apply IH; done.
Qed.

(** C2: after one run with threshold [t] (10 when none is given), for every
    component with a repository of its own, RepositoryOutdated is active
    exactly when [count_missing() > t] and RepositoryChanges exactly when
    [count_outgoing() > t]; the run changes nothing but the alerts. So a
    component with 11 missing commits has RepositoryOutdated active after a
    default run, and a later run that finds at most [t] missing commits
    leaves it inactive. *)
Theorem repository_alerts_threshold
    (threshold : option Z) (w : world) (pk : Z) (c : component) :
  components w !! pk = Some c ->
  is_repo_link c = false ->
  exists a',
    repository_alerts threshold w = (Ok tt, set_alerts (fun _ => a') w)
    /\ ((pk, "RepositoryOutdated") ∈ a' <-> count_missing c > default 10 threshold)
    /\ ((pk, "RepositoryChanges") ∈ a' <-> count_outgoing c > default 10 threshold)
    /\ (forall w2 c2,
          alerts w2 = a' ->
          components w2 !! pk = Some c2 ->
          is_repo_link c2 = false ->
          count_missing c2 <= default 10 threshold ->
          (pk, "RepositoryOutdated") ∉ alerts (repository_alerts threshold w2).2).
Proof.
  intros Hc Hrepo.
  exists (foldl (evaluate_alerts (default 10 threshold)) (alerts w) (with_repo w)).
  assert (Hrun : forall w0, repository_alerts threshold w0 =
            (Ok tt, set_alerts (fun _ => foldl (evaluate_alerts (default 10 threshold))
                                           (alerts w0) (with_repo w0)) w0)).
  { intros w0. unfold repository_alerts, bind, gets.
    rewrite repository_alerts_loop. destruct w0; reflexivity. }
  split; [apply Hrun|].
  destruct (foldl_evaluate_alerts_row (default 10 threshold) (with_repo w)
              (alerts w) pk c (with_repo_NoDup w)) as [H1 H2].
  { apply elem_of_with_repo. done. }
  split; [exact H1|]. split; [exact H2|].
  intros w2 c2 _ Hc2 Hrepo2 Hle. rewrite Hrun. simpl.
  destruct (foldl_evaluate_alerts_row (default 10 threshold) (with_repo w2)
              (alerts w2) pk c2 (with_repo_NoDup w2)) as [H3 _].
  { apply elem_of_with_repo. done. }
  rewrite H3. lia.
Qed.

Lemma repository_alerts_threshold_witness :
  exists a',
    repository_alerts None sample_world = (Ok tt, set_alerts (fun _ => a') sample_world)
    /\ ((1, "RepositoryOutdated") ∈ a' <-> count_missing core > default 10 None)
    /\ ((1, "RepositoryChanges") ∈ a' <-> count_outgoing core > default 10 None)
    /\ (forall w2 c2,
          alerts w2 = a' ->
          components w2 !! 1 = Some c2 ->
          is_repo_link c2 = false ->
          count_missing c2 <= default 10 None ->
          (1, "RepositoryOutdated") ∉ alerts (repository_alerts None w2).2).
Proof.
  apply (repository_alerts_threshold None sample_world 1 core).
  - vm_compute. reflexivity.
  - reflexivity.
Defined.

(** ** Cleanup of the fulltext index *)

Lemma filter_ext_elem {A} (P Q : A -> Prop)
    `{!forall x, Decision (P x)} `{!forall x, Decision (Q x)} (l : list A) :
  (forall x, x ∈ l -> P x <-> Q x) -> filter P l = filter Q l.
Proof.
  induction l as [|x l IH]; intros Hext; [done|].
  rewrite !filter_cons.
  assert (Hx : P x <-> Q x) by (apply Hext; left).
  rewrite IH by (intros y Hy; apply Hext; right; done).
  destruct (decide (P x)), (decide (Q x)); tauto.
Qed.

Lemma filter_all {A} (P : A -> Prop) `{!forall x, Decision (P x)} (l : list A) :
  (forall x, x ∈ l -> P x) -> filter P l = l.
Proof.
  induction l as [|x l IH]; intros Hall; [done|].
  rewrite filter_cons_True by (apply Hall; left).
  rewrite IH; [done|]. intros y Hy. apply Hall. right. done.
Qed.

Lemma filter_live_idemp w (l : list stored_fields) :
  filter (live w) (filter (live w) l) = filter (live w) l.
Proof. apply filter_all. intros x [Hx _]%list_elem_of_filter. exact Hx. Qed.

Lemma set_fulltext_set_fulltext f g w :
  set_fulltext f (set_fulltext g w) = set_fulltext (fun m => f (g m)) w.
Proof. destruct w; reflexivity. Qed.

Lemma set_fulltext_id w : set_fulltext (fun m => m) w = w.
Proof. destruct w; reflexivity. Qed.

Lemma set_fulltext_same f w :
  f (fulltext w) = fulltext w -> set_fulltext f w = w.
Proof. intros H. unfold set_fulltext. rewrite H. destruct w; reflexivity. Qed.

Lemma set_fulltext_ext f g w :
  f (fulltext w) = g (fulltext w) -> set_fulltext f w = set_fulltext g w.
Proof. intros H. unfold set_fulltext. rewrite H. reflexivity. Qed.

Lemma foldl_purge w fields : forall l,
  foldl (purge w) l fields = filter (kept w fields) l.
Proof.
  induction fields as [|item fields IH]; intros l; simpl.
  - symmetry. apply filter_all. intros x _. constructor.
  - rewrite IH. unfold purge. case_bool_decide as Hlive.
    + apply filter_ext_elem. intros x _. unfold kept. rewrite Forall_cons. tauto.
    + rewrite list_filter_filter. apply filter_ext_elem. intros x _.
      unfold kept. rewrite Forall_cons. tauto.
Qed.

Lemma foldl_purge_self w l : foldl (purge w) l l = filter (live w) l.
Proof.
  rewrite foldl_purge. apply filter_ext_elem. intros x Hx. unfold kept. split.
  - intros H. rewrite Forall_forall in H. destruct (H x Hx); done.
  - intros Hlive. apply Forall_forall. intros item _.
    destruct (decide (live w item)) as [|Hdead]; [left; done|].
    right. intros Heq. apply Hdead. unfold live in *. rewrite <- Heq. done.
Qed.

Lemma cleanup_fulltext_items_spec lang fields : forall w,
  cleanup_fulltext_items lang fields w =
  (Ok tt, set_fulltext (alter (fun l => foldl (purge w) l fields) lang) w).
Proof.
  induction fields as [|item fields IH]; intros w.
  - cbn [cleanup_fulltext_items for_each foldl]. unfold ret. f_equal. symmetry.
    apply set_fulltext_same, alter_id. done.
  - unfold cleanup_fulltext_items in *. cbn [for_each foldl].
    unfold bind at 1. unfold bind at 1. unfold Unit_exists, gets.
    fold (live w item). unfold purge at 2.
    destruct (bool_decide (live w item)).
    + unfold ret at 1. apply IH.
    + unfold clean_search_unit, modify. rewrite IH, set_fulltext_set_fulltext.
      f_equal. apply set_fulltext_ext. cbn beta.
      rewrite alter_alter_eq. apply alter_ext. intros x _. reflexivity.
Qed.

Lemma cleanup_fulltext_lang_spec lang w :
  cleanup_fulltext_lang lang w =
  (Ok tt, set_fulltext (alter (filter (live w)) lang) w).
Proof.
  unfold cleanup_fulltext_lang, bind, try_except, all_stored_fields.
  destruct (fulltext w !! lang) as [items|] eqn:E; simpl.
  - rewrite cleanup_fulltext_items_spec. f_equal.
    apply set_fulltext_ext, alter_ext. intros x Hx. rewrite E in Hx. injection Hx as <-.
    apply foldl_purge_self.
  - unfold ret. f_equal. symmetry. apply set_fulltext_same, alter_id'. done.
Qed.

Lemma cleanup_fulltext_loop langs : forall w,
  for_each langs cleanup_fulltext_lang w =
  (Ok tt,
   set_fulltext (fun m => foldl (fun m lang => alter (filter (live w)) lang m) m langs) w).
Proof.
  induction langs as [|lang langs IH]; intros w; simpl.
  - unfold ret. rewrite set_fulltext_id. reflexivity.
  - unfold bind at 1. rewrite cleanup_fulltext_lang_spec, IH, set_fulltext_set_fulltext.
    reflexivity.
Qed.

Lemma lookup_foldl_alter w langs : forall (m : gmap (option string) (list stored_fields)) k,
  foldl (fun m lang => alter (filter (live w)) lang m) m langs !! k =
  if decide (k ∈ langs) then filter (live w) <$> m !! k else m !! k.
Proof.
  induction langs as [|lang langs IH]; intros m k; cbn [foldl].
  - case_decide as Hk; [|reflexivity]. apply not_elem_of_nil in Hk. done.
  - rewrite IH.
    destruct (decide (k ∈ langs)) as [Hin|Hnotin];
      destruct (decide (k ∈ lang :: langs)) as [Hin'|Hnotin'];
      destruct (decide (lang = k)) as [->|Hne];
      rewrite ?lookup_alter_eq, ?lookup_alter_ne by done;
      try reflexivity.
    + destruct (m !! k); cbn; [|reflexivity]. rewrite filter_live_idemp. reflexivity.
    + exfalso. apply Hnotin'. left.
    + exfalso. apply Hnotin'. right. done.
    + apply elem_of_cons in Hin' as [?|?]; congruence.
    + exfalso. apply Hnotin'. left.
Qed.

(** C7: one run of the cleanup raises nothing and leaves, in every
    partition it visits (one per language, and the source partition),
    exactly the entries whose unit still exists; a partition that was never
    built stays so; partitions of no language and everything outside the
    index stay as they were; and a second run right after the first changes
    nothing, so it removes no entry. *)
Theorem cleanup_fulltext_removes_stale (w : world) :
  exists index',
    cleanup_fulltext w = (Ok tt, set_fulltext (fun _ => index') w)
    /\ (forall lang, lang ∈ partitions w ->
          index' !! lang = filter (live w) <$> fulltext w !! lang)
    /\ (forall lang item entries, lang ∈ partitions w ->
          fulltext w !! lang = Some entries ->
          item ∈ entries ->
          (exists entries', index' !! lang = Some entries'
                            /\ (item ∈ entries' <-> is_Some (units w !! item_pk item))))
    /\ (forall lang, lang ∈ partitions w ->
          fulltext w !! lang = None -> index' !! lang = None)
    /\ (forall lang, lang ∉ partitions w -> index' !! lang = fulltext w !! lang)
    /\ cleanup_fulltext (set_fulltext (fun _ => index') w)
       = (Ok tt, set_fulltext (fun _ => index') w).
Proof.
  set (index' := foldl (fun m lang => alter (filter (live w)) lang m)
                   (fulltext w) (partitions w)).
  assert (Hrun : forall w0, cleanup_fulltext w0 =
            (Ok tt, set_fulltext (fun _ =>
                      foldl (fun m lang => alter (filter (live w0)) lang m)
                        (fulltext w0) (partitions w0)) w0)).
  { intros w0. unfold cleanup_fulltext, bind, gets.
    fold (partitions w0). rewrite cleanup_fulltext_loop. reflexivity. }
  assert (Hvisited : forall lang, lang ∈ partitions w ->
            index' !! lang = filter (live w) <$> fulltext w !! lang).
  { intros lang Hin. unfold index'. rewrite lookup_foldl_alter, decide_True by done.
    reflexivity. }
  assert (Hother : forall lang, lang ∉ partitions w ->
            index' !! lang = fulltext w !! lang).
  { intros lang Hin. unfold index'. rewrite lookup_foldl_alter, decide_False by done.
    reflexivity. }
  exists index'. split; [apply Hrun|]. split; [exact Hvisited|].
  split; [|split; [|split; [exact Hother|]]].
  - intros lang item entries Hin Hl Hitem. rewrite Hvisited, Hl by done. simpl.
    eexists; split; [reflexivity|]. rewrite list_elem_of_filter. unfold live. tauto.
  - intros lang Hin Hl. rewrite Hvisited, Hl by done. reflexivity.
  - rewrite Hrun. f_equal. rewrite set_fulltext_set_fulltext.
    apply set_fulltext_ext. cbn beta.
    change (foldl (fun m lang => alter (filter (live w)) lang m) index' (partitions w)
            = index').
    apply map_eq. intros k.
    rewrite lookup_foldl_alter. case_decide as Hk; [|reflexivity].
    rewrite (Hvisited k Hk).
    destruct (fulltext w !! k); cbn; [|reflexivity].
    f_equal. apply filter_live_idemp.
Qed.

Lemma cleanup_fulltext_removes_stale_witness :
  exists index',
    cleanup_fulltext sample_world = (Ok tt, set_fulltext (fun _ => index') sample_world)
    /\ index' !! Some "cs" = Some [StoredFields 101]
    /\ index' !! None = Some [StoredFields 100].
Proof.
  destruct (cleanup_fulltext_removes_stale sample_world)
    as (index' & Hrun & Hvisited & _).
  exists index'. split; [exact Hrun|]. split.
  - rewrite Hvisited by (vm_compute; left). vm_compute. reflexivity.
  - rewrite Hvisited by (vm_compute; right; left). vm_compute. reflexivity.
Defined.

(** ** Cleanup of old suggestions and comments *)

(** C10: with [SUGGESTION_CLEANUP_DAYS] unset or zero a run of
    [cleanup_old_suggestions] returns at once and the world, so the stored
    suggestions, is unchanged; likewise [cleanup_old_comments] with
    [COMMENT_CLEANUP_DAYS]. In every case a run raises nothing, each job
    leaves the other table alone, and a record that is gone after the run
    had a timestamp strictly below the reading of the clock minus the
    configured number of days, while every record at or above that cutoff
    is still there. *)
Theorem cleanup_old_records_only_stale (w : world) :
  (SUGGESTION_CLEANUP_DAYS w = None \/ SUGGESTION_CLEANUP_DAYS w = Some 0 ->
   cleanup_old_suggestions w = (Ok tt, w))
  /\ (COMMENT_CLEANUP_DAYS w = None \/ COMMENT_CLEANUP_DAYS w = Some 0 ->
      cleanup_old_comments w = (Ok tt, w))
  /\ (exists w', cleanup_old_suggestions w = (Ok tt, w')
        /\ comments w' = comments w
        /\ forall pk s, suggestions w !! pk = Some s ->
             (suggestions w' !! pk = None ->
              exists d, SUGGESTION_CLEANUP_DAYS w = Some d /\ d <> 0
                /\ suggestion_timestamp s < clock w (ticks w) - timedelta_days d)
             /\ (suggestions w' !! pk = None \/ suggestions w' !! pk = Some s)
             /\ (forall d, SUGGESTION_CLEANUP_DAYS w = Some d -> d <> 0 ->
                   suggestion_timestamp s < clock w (ticks w) - timedelta_days d ->
                   suggestions w' !! pk = None))
  /\ (exists w', cleanup_old_comments w = (Ok tt, w')
        /\ suggestions w' = suggestions w
        /\ forall pk c, comments w !! pk = Some c ->
             (comments w' !! pk = None ->
              exists d, COMMENT_CLEANUP_DAYS w = Some d /\ d <> 0
                /\ comment_timestamp c < clock w (ticks w) - timedelta_days d)
             /\ (comments w' !! pk = None \/ comments w' !! pk = Some c)
             /\ (forall d, COMMENT_CLEANUP_DAYS w = Some d -> d <> 0 ->
                   comment_timestamp c < clock w (ticks w) - timedelta_days d ->
                   comments w' !! pk = None)).
Proof.
  split; [|split; [|split]].
  - unfold cleanup_old_suggestions, bind, gets. intros [-> | ->]; reflexivity.
  - unfold cleanup_old_comments, bind, gets. intros [-> | ->]; reflexivity.
  - unfold cleanup_old_suggestions, bind, gets.
    destruct (SUGGESTION_CLEANUP_DAYS w) as [d|] eqn:Hd.
    2:{ exists w. split; [reflexivity|]. split; [reflexivity|].
        intros pk s Hs. rewrite Hs. split; [done|]. split; [by right|]. done. }
    case_bool_decide as Hz.
    { exists w. split; [reflexivity|]. split; [reflexivity|].
      intros pk s Hs. rewrite Hs. split; [done|]. split; [by right|].
      intros d' [= <-]. done. }
    unfold timezone_now, modify. eexists. split; [reflexivity|].
    split; [reflexivity|]. intros pk s Hs. cbn [suggestions set_suggestions set_ticks].
    destruct (decide (suggestion_timestamp s < clock w (ticks w) - timedelta_days d))
      as [Hold|Hnew].
    + assert (Hgone : filter (fun ks : Z * suggestion =>
                         ¬ suggestion_timestamp ks.2 < clock w (ticks w) - timedelta_days d)
                        (suggestions w) !! pk = None).
      { apply map_lookup_filter_None. right. intros s' Hs'.
        rewrite Hs in Hs'. injection Hs' as <-. cbn. tauto. }
      rewrite Hgone. split; [intros _; exists d; done|]. split; [by left|]. done.
    + assert (Hkept : filter (fun ks : Z * suggestion =>
                         ¬ suggestion_timestamp ks.2 < clock w (ticks w) - timedelta_days d)
                        (suggestions w) !! pk = Some s).
      { apply map_lookup_filter_Some. split; [exact Hs|]. exact Hnew. }
      rewrite Hkept. split; [done|]. split; [by right|].
      intros d' [= <-] _ Hlt. contradiction.
  - unfold cleanup_old_comments, bind, gets.
    destruct (COMMENT_CLEANUP_DAYS w) as [d|] eqn:Hd.
    2:{ exists w. split; [reflexivity|]. split; [reflexivity|].
        intros pk s Hs. rewrite Hs. split; [done|]. split; [by right|]. done. }
    case_bool_decide as Hz.
    { exists w. split; [reflexivity|]. split; [reflexivity|].
      intros pk s Hs. rewrite Hs. split; [done|]. split; [by right|].
      intros d' [= <-]. done. }
    unfold timezone_now, modify. eexists. split; [reflexivity|].
    split; [reflexivity|]. intros pk s Hs. cbn [comments set_comments set_ticks].
    destruct (decide (comment_timestamp s < clock w (ticks w) - timedelta_days d))
      as [Hold|Hnew].
    + assert (Hgone : filter (fun ks : Z * comment =>
                         ¬ comment_timestamp ks.2 < clock w (ticks w) - timedelta_days d)
                        (comments w) !! pk = None).
      { apply map_lookup_filter_None. right. intros s' Hs'.
        rewrite Hs in Hs'. injection Hs' as <-. cbn. tauto. }
      rewrite Hgone. split; [intros _; exists d; done|]. split; [by left|]. done.
    + assert (Hkept : filter (fun ks : Z * comment =>
                         ¬ comment_timestamp ks.2 < clock w (ticks w) - timedelta_days d)
                        (comments w) !! pk = Some s).
      { apply map_lookup_filter_Some. split; [exact Hs|]. exact Hnew. }
      rewrite Hkept. split; [done|]. split; [by right|].
      intros d' [= <-] _ Hlt. contradiction.
Qed.

Lemma cleanup_old_records_only_stale_witness :
  cleanup_old_suggestions sample_world = (Ok tt, sample_world)
  /\ cleanup_old_comments sample_world = (Ok tt, sample_world).
Proof.
  destruct (cleanup_old_records_only_stale sample_world) as (H1 & H2 & _).
  split; [apply H1 | apply H2]; left; reflexivity.
Defined.

(** With three days configured, the suggestion from the epoch goes, and the
    one stamped exactly at the cutoff stays. *)
Example cleanup_old_suggestions_three_days :
  let w' := (cleanup_old_suggestions (sample (PyStr "remote") (Some 3))).2 in
  suggestions w' !! 1 = None
  /\ suggestions w' !! 2 = Some (Suggestion 800000000000)
  /\ suggestions w' !! 3 = Some (Suggestion 604800000000).
Proof. vm_compute. repeat split. Qed.

(** ** The stale-repository reaper *)

Lemma set_vcs_tree_set_vcs_tree f g w :
  set_vcs_tree f (set_vcs_tree g w) = set_vcs_tree (fun t => f (g t)) w.
Proof. destruct w; reflexivity. Qed.

Lemma set_vcs_tree_same f w :
  f (vcs_tree w) = vcs_tree w -> set_vcs_tree f w = w.
Proof. intros H. unfold set_vcs_tree. rewrite H. destruct w; reflexivity. Qed.

Lemma set_vcs_tree_ext f g w :
  f (vcs_tree w) = g (vcs_tree w) -> set_vcs_tree f w = set_vcs_tree g w.
Proof. intros H. unfold set_vcs_tree. rewrite H. reflexivity. Qed.

Lemma delete_alter_same (f : dirent -> dirent) (path : string * string)
    (tree : gmap (string * string) dirent) :
  delete path (alter f path tree) = delete path tree.
Proof.
  apply map_eq. intros k. destruct (decide (path = k)) as [->|Hne].
  - rewrite !lookup_delete_eq. reflexivity.
  - rewrite !lookup_delete_ne, lookup_alter_ne by done. reflexivity.
Qed.

Lemma cleanup_stale_repos_body_spec yesterday path w :
  cleanup_stale_repos_body yesterday path w =
  (Ok tt,
   set_vcs_tree (fun tree => if reapb yesterday path w then delete path tree else tree) w).
Proof.
  unfold cleanup_stale_repos_body, reapb, bind, isdir, getmtime, gets, rmtree.
  destruct (vcs_tree w !! path) as [d|] eqn:E; cbn [negb].
  2:{ unfold ret. f_equal. symmetry. apply set_vcs_tree_same. reflexivity. }
  destruct (is_dir d); cbn [negb andb].
  2:{ unfold ret. f_equal. symmetry. apply set_vcs_tree_same. reflexivity. }
  rewrite E. destruct (Qgtb (mtime d) yesterday); cbn [negb andb].
  { unfold ret. f_equal. symmetry. apply set_vcs_tree_same. reflexivity. }
  destruct (exists_ (matching_components path.1 path.2 w)); cbn [negb].
  { unfold ret. f_equal. symmetry. apply set_vcs_tree_same. reflexivity. }
  rewrite E. destruct (read_only d).
  - unfold remove_readonly, modify. f_equal. apply set_vcs_tree_ext.
    apply delete_alter_same.
  - reflexivity.
Qed.

Lemma reapb_frame yesterday path f w :
  f (vcs_tree w) !! path = vcs_tree w !! path ->
  reapb yesterday path (set_vcs_tree f w) = reapb yesterday path w.
Proof.
  intros H. unfold reapb. cbn [vcs_tree set_vcs_tree]. rewrite H. reflexivity.
Qed.

Lemma cleanup_stale_repos_loop yesterday paths : forall w,
  NoDup paths ->
  exists tree',
    for_each paths (cleanup_stale_repos_body yesterday) w
      = (Ok tt, set_vcs_tree (fun _ => tree') w)
    /\ forall k,
         tree' !! k =
         if decide (k ∈ paths)
         then (if reapb yesterday k w then None else vcs_tree w !! k)
         else vcs_tree w !! k.
Proof.
  induction paths as [|path paths IH]; intros w Hnd.
  - exists (vcs_tree w). split.
    + cbn [for_each]. unfold ret. f_equal. symmetry.
      apply set_vcs_tree_same. reflexivity.
    + intros k. case_decide as Hk; [|reflexivity].
      apply not_elem_of_nil in Hk. done.
  - apply NoDup_cons in Hnd as [Hnotin Hnd]. cbn [for_each]. unfold bind at 1.
    rewrite cleanup_stale_repos_body_spec.
    set (step := fun tree : gmap (string * string) dirent =>
                   if reapb yesterday path w then delete path tree else tree).
    destruct (IH (set_vcs_tree step w) Hnd) as (tree' & Hrun & Hlookup).
    exists tree'. split.
    { rewrite Hrun, set_vcs_tree_set_vcs_tree. reflexivity. }
    intros k. rewrite Hlookup. cbn [vcs_tree set_vcs_tree].
    assert (Hstep : forall k', k' <> path -> step (vcs_tree w) !! k' = vcs_tree w !! k').
    { intros k' Hne. unfold step. destruct (reapb yesterday path w); [|reflexivity].
      apply lookup_delete_ne. congruence. }
    destruct (decide (k = path)) as [->|Hne].
    + rewrite decide_False by done. rewrite decide_True by left.
      unfold step. destruct (reapb yesterday path w) eqn:Hreap; [|reflexivity].
      apply lookup_delete_eq.
    + rewrite reapb_frame by (apply Hstep; done). rewrite Hstep by done.
      destruct (decide (k ∈ paths)) as [Hin|Hnin].
      * rewrite decide_True by (right; done). reflexivity.
      * rewrite decide_False; [reflexivity|].
        intros [?|?]%elem_of_cons; done.
Qed.

Lemma elem_of_glob_vcs w path :
  path ∈ glob_vcs w <->
  glob_star path.1 = true /\ glob_star path.2 = true /\ is_Some (vcs_tree w !! path).
Proof.
  unfold glob_vcs. rewrite list_elem_of_filter, list_elem_of_fmap.
  rewrite andb_True, !Is_true_true. split.
  - intros ((H1 & H2) & [k d] & -> & Hin). apply elem_of_map_to_list in Hin.
    cbn in *. rewrite Hin. eauto.
  - intros (H1 & H2 & d & Hd). split; [done|]. exists (path, d). split; [done|].
    apply elem_of_map_to_list. exact Hd.
Qed.

Lemma glob_vcs_NoDup w : NoDup (glob_vcs w).
Proof. apply NoDup_filter, NoDup_fst_map_to_list. Qed.

Lemma matching_components_nil project_ component_ w :
  exists_ (matching_components project_ component_ w) = false <->
  ~ exists pk c, components w !! pk = Some c /\ is_repo_link c = false
                 /\ slug c = component_
                 /\ project_slug <$> projects w !! project_id c = Some project_.
Proof.
  split.
  - intros Hnil (pk & c & Hc & Hrepo & Hslug & Hproj).
    assert (Hin : (pk, c) ∈ matching_components project_ component_ w).
    { unfold matching_components. apply list_elem_of_filter. split; [done|].
      apply elem_of_with_repo. done. }
    destruct (matching_components project_ component_ w); [inversion Hin|done].
  - intros Hnone.
    destruct (matching_components project_ component_ w) as [|[pk c] l] eqn:E;
      [reflexivity|].
    exfalso. apply Hnone. exists pk, c.
    assert (Hin : (pk, c) ∈ matching_components project_ component_ w)
      by (rewrite E; left).
    unfold matching_components in Hin.
    apply list_elem_of_filter in Hin as [[H1 H2] Hin].
    apply elem_of_with_repo in Hin as [H3 H4]. done.
Qed.

(** C8 (as amended): one sweep removes an entry matched by the mask
    [<root>/*/*] exactly when it is a directory, its last-modified time is
    at least 24 hours before the start of the sweep, and no component with
    a repository of its own has its project and component slugs; whether
    the directory is read-only plays no part, and an entry that is not
    removed is left as it was. Nothing but the checkout tree changes. *)
Theorem cleanup_stale_repos_reaps
    (w : world) (path : string * string) (d : dirent) :
  vcs_tree w !! path = Some d ->
  exists tree',
    cleanup_stale_repos w = (Ok tt, set_ticks S (set_vcs_tree (fun _ => tree') w))
    /\ (tree' !! path = None <->
        glob_star path.1 = true
        /\ glob_star path.2 = true
        /\ is_dir d = true
        /\ (mtime d <= (clock w (ticks w) # 1000000) - 86400)%Q
        /\ ~ exists pk c,
               components w !! pk = Some c /\ is_repo_link c = false
               /\ slug c = path.2
               /\ project_slug <$> projects w !! project_id c = Some path.1)
    /\ (tree' !! path = None \/ tree' !! path = Some d).
Proof.
  intros Hd. unfold cleanup_stale_repos, bind, time_time, gets.
  set (yesterday := ((clock w (ticks w) # 1000000) - 86400)%Q).
  destruct (cleanup_stale_repos_loop yesterday (glob_vcs (set_ticks S w))
              (set_ticks S w) (glob_vcs_NoDup _)) as (tree' & Hrun & Hlookup).
  exists tree'. split.
  { rewrite Hrun. f_equal; world_ext. }
  specialize (Hlookup path). cbn [vcs_tree set_ticks] in Hlookup.
  change (glob_vcs (set_ticks S w)) with (glob_vcs w) in Hlookup.
  assert (Hreap : reapb yesterday path (set_ticks S w) = true <->
            is_dir d = true /\ (mtime d <= yesterday)%Q
            /\ ~ exists pk c,
                   components w !! pk = Some c /\ is_repo_link c = false
                   /\ slug c = path.2
                   /\ project_slug <$> projects w !! project_id c = Some path.1).
  { unfold reapb. cbn [vcs_tree set_ticks]. rewrite Hd.
    change (matching_components path.1 path.2 (set_ticks S w))
      with (matching_components path.1 path.2 w).
    rewrite <- matching_components_nil, !andb_true_iff, !negb_true_iff.
    unfold Qgtb. rewrite negb_false_iff, Qle_bool_iff. tauto. }
  destruct (decide (path ∈ glob_vcs w)) as [Hin|Hnotin].
  - apply elem_of_glob_vcs in Hin as (H1 & H2 & _).
    destruct (reapb yesterday path (set_ticks S w)) eqn:E.
    + rewrite Hlookup. split; [|left; reflexivity].
      split; [intros _|reflexivity].
      destruct Hreap as [Hr _]. destruct (Hr eq_refl) as (? & ? & ?). done.
    + rewrite Hlookup, Hd. split; [|right; reflexivity].
      split; [done|]. intros (_ & _ & H3 & H4 & H5).
      assert (Hc : false = true) by (apply Hreap; done). done.
  - rewrite Hlookup, Hd. split; [|right; reflexivity].
    split; [done|]. intros (H1 & H2 & _). exfalso. apply Hnotin.
    apply elem_of_glob_vcs. rewrite Hd. eauto.
Qed.

(** The directory [acme/gone], two days old, read-only and without a
    component, is removed. *)
Lemma cleanup_stale_repos_reaps_witness :
  exists tree',
    cleanup_stale_repos sample_world
      = (Ok tt, set_ticks S (set_vcs_tree (fun _ => tree') sample_world))
    /\ tree' !! ("acme", "gone") = None.
Proof.
  destruct (cleanup_stale_repos_reaps sample_world ("acme", "gone")
              (Dirent true 691200 true)) as (tree' & Hrun & Hiff & _).
  { vm_compute. reflexivity. }
  exists tree'. split; [exact Hrun|]. apply Hiff.
  split; [reflexivity|]. split; [reflexivity|]. split; [reflexivity|].
  split; [vm_compute; discriminate|].
  intros (pk & c & Hc & _ & Hslug & _).
  assert (Hpk : pk = 1 \/ pk = 2).
  { destruct (decide (pk = 1)) as [|H1]; [by left|].
    destruct (decide (pk = 2)) as [|H2]; [by right|].
    unfold sample_world, sample in Hc. cbn [components] in Hc.
    rewrite lookup_insert_ne, lookup_singleton_ne in Hc by done. done. }
  destruct Hpk as [-> | ->]; vm_compute in Hc; injection Hc as <-; discriminate.
Defined.

(** The same directory modified an hour ago stays, and so does a file. *)
Example cleanup_stale_repos_keeps_fresh :
  let tree' := vcs_tree (cleanup_stale_repos sample_world).2 in
  tree' !! ("acme", "fresh") = Some (Dirent true 860400 false)
  /\ tree' !! ("acme", "core") = Some (Dirent true 691200 false)
  /\ tree' !! ("acme", "README") = Some (Dirent false 691200 false)
  /\ tree' !! ("acme", "gone") = None.
Proof. vm_compute. repeat split. Qed.

(** C8 (as stated) fails twice. [acme/edge] was modified exactly 24 hours
    before the sweep, which is not more than 24 hours, and is removed;
    [acme/docs] has the slugs of the live component [docs], which is a
    link without a repository of its own, and is removed. *)
Lemma cleanup_stale_repos_counterexample :
  let now := (clock sample_world (ticks sample_world) # 1000000)%Q in
  let tree' := vcs_tree (cleanup_stale_repos sample_world).2 in
  (vcs_tree sample_world !! ("acme", "edge") = Some (Dirent true 777600 false)
   /\ ~ (777600 < now - 86400)%Q
   /\ tree' !! ("acme", "edge") = None)
  /\ (vcs_tree sample_world !! ("acme", "docs") = Some (Dirent true 691200 false)
      /\ components sample_world !! 2 = Some docs
      /\ slug docs = "docs"
      /\ project_slug <$> projects sample_world !! project_id docs = Some "acme"
      /\ tree' !! ("acme", "docs") = None).
Proof.
  cbv zeta. split.
  - split; [vm_compute; reflexivity|]. split; [|vm_compute; reflexivity].
    vm_compute. intros H. discriminate H.
  - repeat split; vm_compute; reflexivity.
Qed.

(** ** Updates and the auto-update mode *)

Lemma set_queue_set_queue f g w :
  set_queue f (set_queue g w) = set_queue (fun q => f (g q)) w.
Proof. destruct w; reflexivity. Qed.

Lemma set_queue_ext f g w :
  f (queue w) = g (queue w) -> set_queue f w = set_queue g w.
Proof. intros H. unfold set_queue. rewrite H. reflexivity. Qed.

Lemma set_queue_same f w : f (queue w) = queue w -> set_queue f w = w.
Proof. intros H. unfold set_queue. rewrite H. destruct w; reflexivity. Qed.

Lemma for_each_delay {A} (f : A -> task) (rows : list A) : forall w,
  for_each rows (fun row => delay (f row)) w =
  (Ok tt, set_queue (fun q => q ++ (f <$> rows)) w).
Proof.
  induction rows as [|row rows IH]; intros w; cbn [for_each fmap list_fmap].
  - unfold ret. f_equal. symmetry. apply set_queue_same, app_nil_r.
  - unfold bind at 1, delay at 1, modify. rewrite IH, set_queue_set_queue.
    f_equal. apply set_queue_ext. rewrite <- app_assoc. reflexivity.
Qed.

Lemma py_in_sweep v :
  py_in v [PyStr "full"; PyStr "remote"; PyBool true; PyBool false]
  = py_in v [PyStr "full"; PyBool true] || py_in v [PyStr "remote"; PyBool false].
Proof.
  unfold py_in. cbn [existsb].
  destruct (py_eq v (PyStr "full")), (py_eq v (PyStr "remote")),
    (py_eq v (PyBool true)), (py_eq v (PyBool false)); reflexivity.
Qed.

Lemma full_mode_iff v :
  auto_update_mode_of v = FullMode <-> py_in v [PyStr "full"; PyBool true] = true.
Proof.
  unfold auto_update_mode_of.
  destruct (py_in v [PyStr "full"; PyBool true]);
    destruct (py_in v [PyStr "remote"; PyBool false]); split; congruence.
Qed.

Lemma disabled_mode_iff v :
  auto_update_mode_of v = DisabledMode <->
  py_in v [PyStr "full"; PyStr "remote"; PyBool true; PyBool false] = false.
Proof.
  rewrite py_in_sweep. unfold auto_update_mode_of.
  destruct (py_in v [PyStr "full"; PyBool true]);
    destruct (py_in v [PyStr "remote"; PyBool false]); split; cbn; congruence.
Qed.

Section Updates.

Variable invoke : method -> M unit.

Lemma perform_update_try_component pk auto w c :
  components w !! pk = Some c ->
  perform_update_try invoke "Component" pk auto w =
  (if py_in (AUTO_UPDATE w) [PyStr "full"; PyBool true] || negb auto
   then invoke (do_update (ComponentRef pk))
   else invoke (update_remote_branch (ComponentRef pk))) w.
Proof.
  intros Hc. unfold perform_update_try.
  rewrite (bool_decide_eq_false_2 ("Component" = "Project")) by discriminate.
  unfold bind, Component_objects_get, gets, ret. rewrite Hc. reflexivity.
Qed.

(** C5: for a component with a repository of its own, an update started
    by the scheduler ([auto] true) runs the full update [do_update] when
    the mode is full and only [update_remote_branch] in every other mode,
    so in remote-only mode; an update started by hand ([auto] false) runs
    [do_update] whatever the mode; and the sweep [update_remotes] queues
    nothing in disabled mode, and otherwise one scheduler-triggered
    update per component with a repository. *)
Theorem auto_update_mode_decides (w : world) (pk : Z) (c : component) :
  components w !! pk = Some c ->
  is_repo_link c = false ->
  let mode := auto_update_mode_of (AUTO_UPDATE w) in
  (mode = FullMode ->
     perform_update invoke "Component" pk true w
     = try_except (invoke (do_update (ComponentRef pk))) except_FileParseError w)
  /\ (mode <> FullMode ->
        perform_update invoke "Component" pk true w
        = try_except (invoke (update_remote_branch (ComponentRef pk)))
            except_FileParseError w)
  /\ (mode = RemoteOnlyMode ->
        perform_update invoke "Component" pk true w
        = try_except (invoke (update_remote_branch (ComponentRef pk)))
            except_FileParseError w)
  /\ perform_update invoke "Component" pk false w
     = try_except (invoke (do_update (ComponentRef pk))) except_FileParseError w
  /\ (mode = DisabledMode -> update_remotes w = (Ok tt, w))
  /\ (mode <> DisabledMode ->
        exists tasks,
          update_remotes w = (Ok tt, set_queue (fun q => q ++ tasks) w)
          /\ tasks = (fun row : Z * component =>
                        perform_update_task "Component" row.1 true) <$> with_repo w
          /\ perform_update_task "Component" pk true ∈ tasks).
Proof.
  intros Hc Hrepo mode.
  assert (Hnotfull : mode <> FullMode ->
            perform_update invoke "Component" pk true w
            = try_except (invoke (update_remote_branch (ComponentRef pk)))
                except_FileParseError w).
  { intros Hm. unfold perform_update, try_except.
    rewrite (perform_update_try_component pk true w c Hc).
    destruct (py_in (AUTO_UPDATE w) [PyStr "full"; PyBool true]) eqn:E;
      [|reflexivity].
    exfalso. apply Hm. apply full_mode_iff. exact E. }
  split; [|split; [exact Hnotfull|split; [|split; [|split]]]].
  - intros Hm. apply full_mode_iff in Hm. unfold perform_update, try_except.
    rewrite (perform_update_try_component pk true w c Hc), Hm. reflexivity.
  - intros Hm. apply Hnotfull. rewrite Hm. discriminate.
  - unfold perform_update, try_except.
    rewrite (perform_update_try_component pk false w c Hc), orb_true_r.
    reflexivity.
  - intros Hm. apply disabled_mode_iff in Hm.
    unfold update_remotes, bind, gets. rewrite Hm. reflexivity.
  - intros Hm. eexists. split; [|split; [reflexivity|]].
    + unfold update_remotes, bind, gets.
      destruct (py_in (AUTO_UPDATE w)
                  [PyStr "full"; PyStr "remote"; PyBool true; PyBool false]) eqn:E.
      * cbn [negb]. apply for_each_delay.
      * exfalso. apply Hm. apply disabled_mode_iff. exact E.
    + apply list_elem_of_fmap. exists (pk, c). split; [reflexivity|].
      apply elem_of_with_repo. done.
Qed.

End Updates.

Lemma auto_update_mode_decides_witness :
  perform_update quiet "Component" 1 true sample_world
  = try_except (quiet (update_remote_branch (ComponentRef 1)))
      except_FileParseError sample_world
  /\ perform_update quiet "Component" 1 false sample_world
     = try_except (quiet (do_update (ComponentRef 1))) except_FileParseError sample_world
  /\ update_remotes (sample (PyStr "none") None)
     = (Ok tt, sample (PyStr "none") None).
Proof.
  destruct (auto_update_mode_decides quiet sample_world 1 core)
    as (_ & _ & Hremote & Hmanual & _).
  { vm_compute. reflexivity. }
  { reflexivity. }
  destruct (auto_update_mode_decides quiet (sample (PyStr "none") None) 1 core)
    as (_ & _ & _ & _ & Hdisabled & _).
  { vm_compute. reflexivity. }
  { reflexivity. }
  split; [apply Hremote; reflexivity|]. split; [exact Hmanual|].
  apply Hdisabled. reflexivity.
Defined.

(** ** How a task ends *)

Section Outcomes.

Variable invoke : method -> M unit.

Lemma perform_update_never_parse_error cls pk auto w w' :
  perform_update invoke cls pk auto w <> (Raise FileParseError, w').
Proof.
  unfold perform_update, try_except.
  destruct (perform_update_try invoke cls pk auto w) as [[[]|e] w1]; [done|].
  destruct e; cbn; done.
Qed.

(** C3 (as amended): in an update task a parse failure raised while the
    update runs is caught: the task ends as done, in the state the update
    left behind when it raised (an alert stored there stays), it never
    ends as failed with the parse failure, and it is not retried. A load
    task has no such handler: a parse failure that escapes
    [create_translations] ends the task as failed, and it is not retried
    either. *)
Theorem parse_failure_outcomes
    (cls : string) (pk : Z) (auto : bool) (args : list pyval)
    (retries : nat) (w w' : world) :
  (perform_update_try invoke cls pk auto w = (Raise FileParseError, w') ->
     execute invoke (perform_update_task cls pk auto) retries w = (Done, w'))
  /\ (forall c,
        components w !! pk = Some c ->
        (if py_in (AUTO_UPDATE w) [PyStr "full"; PyBool true] || negb auto
         then invoke (do_update (ComponentRef pk))
         else invoke (update_remote_branch (ComponentRef pk))) w
        = (Raise FileParseError, w') ->
        execute invoke (perform_update_task "Component" pk auto) retries w
        = (Done, w'))
  /\ (forall w1,
        execute invoke (perform_update_task cls pk auto) retries w
        <> (Failed FileParseError, w1))
  /\ (forall c,
        components w !! pk = Some c ->
        invoke (create_translations pk args) w = (Raise FileParseError, w') ->
        execute invoke (perform_load_task pk args) retries w
        = (Failed FileParseError, w')).
Proof.
  assert (Hcaught : forall cls0,
            perform_update_try invoke cls0 pk auto w = (Raise FileParseError, w') ->
            execute invoke (perform_update_task cls0 pk auto) retries w = (Done, w')).
  { intros cls0 H. unfold execute. cbn [run_task].
    unfold perform_update, try_except. rewrite H. reflexivity. }
  split; [apply Hcaught|]. split; [|split].
  - intros c Hc H. apply Hcaught.
    rewrite (perform_update_try_component invoke pk auto w c Hc). exact H.
  - intros w1. unfold execute. cbn [run_task].
    destruct (perform_update invoke cls pk auto w) as [[[]|e] w2] eqn:E; [done|].
    case_bool_decide; [done|]. intros [= -> ->].
    exact (perform_update_never_parse_error _ _ _ _ _ E).
  - intros c Hc H. unfold execute. cbn [run_task].
    unfold perform_load, bind, Component_objects_get. rewrite Hc, H.
    reflexivity.
Qed.

(** C4 (as amended): a [cleanup_project] or [project_removal] task whose
    project is gone ends as done and changes nothing. The [perform_]
    tasks do not catch a missing target: the lookup raises
    [DoesNotExist], the task ends as failed, without a retry, and the
    world is unchanged. *)
Theorem missing_target_outcomes
    (pk uid : Z) (auto : bool) (args : list pyval) (retries : nat) (w : world) :
  (projects w !! pk = None ->
     execute invoke (cleanup_project_task pk) retries w = (Done, w))
  /\ (projects w !! pk = None -> uid ∈ users w ->
        execute invoke (project_removal_task pk uid) retries w = (Done, w))
  /\ (components w !! pk = None ->
        execute invoke (perform_commit_task pk args) retries w
        = (Failed (DoesNotExist ComponentModel), w)
        /\ execute invoke (perform_load_task pk args) retries w
           = (Failed (DoesNotExist ComponentModel), w)
        /\ execute invoke (perform_push_task pk args) retries w
           = (Failed (DoesNotExist ComponentModel), w)
        /\ execute invoke (perform_update_task "Component" pk auto) retries w
           = (Failed (DoesNotExist ComponentModel), w))
  /\ (projects w !! pk = None ->
        execute invoke (perform_update_task "Project" pk auto) retries w
        = (Failed (DoesNotExist ProjectModel), w)).
Proof.
  split; [|split; [|split]].
  - intros Hp. unfold execute. cbn [run_task].
    unfold cleanup_project, bind, try_except, Project_objects_get.
    rewrite Hp. reflexivity.
  - intros Hp Hu. unfold execute. cbn [run_task].
    unfold project_removal, bind, try_except, User_objects_get, Project_objects_get.
    rewrite (bool_decide_eq_true_2 _ Hu), Hp. reflexivity.
  - intros Hc. unfold execute. cbn [run_task].
    unfold perform_commit, perform_load, perform_push, perform_update,
      perform_update_try, try_except, bind, Component_objects_get.
    rewrite (bool_decide_eq_false_2 ("Component" = "Project")) by discriminate.
    rewrite Hc. repeat split; reflexivity.
  - intros Hp. unfold execute. cbn [run_task].
    unfold perform_update, perform_update_try, try_except, bind, Project_objects_get.
    rewrite (bool_decide_eq_true_2 ("Project" = "Project")) by reflexivity.
    rewrite Hp. reflexivity.
Qed.

Lemma backoff_delay_lock_retry n :
  backoff_delay lock_retry n = Z.min 3600 (600 * 2 ^ Z.of_nat n).
Proof. reflexivity. Qed.

(** C6: a task decorated for lock timeouts that fails with [Timeout] is
    sent back to the queue, at every attempt, however many retries came
    before; the delay is 600 seconds at first, doubles with each retry,
    is capped at 3600 seconds and never decreases: 600, 1200, 2400. *)
Theorem lock_timeout_backoff (t : task) (retries : nat) (w w' : world) :
  options_of t = lock_retry ->
  run_task invoke t w = (Raise Timeout, w') ->
  execute invoke t retries w = (Retrying (backoff_delay lock_retry retries), w')
  /\ backoff_delay lock_retry 0 = 600
  /\ backoff_delay lock_retry (S retries)
     = Z.min 3600 (2 * backoff_delay lock_retry retries)
  /\ backoff_delay lock_retry retries <= backoff_delay lock_retry (S retries)
  /\ backoff_delay lock_retry retries <= 3600
  /\ backoff_delay lock_retry 1 = 1200
  /\ backoff_delay lock_retry 2 = 2400.
Proof.
  intros Hopts Hrun. split.
  { unfold execute. rewrite Hrun, Hopts. reflexivity. }
  split; [reflexivity|].
  assert (Hpow : 2 ^ Z.of_nat (S retries) = 2 * 2 ^ Z.of_nat retries).
  { rewrite Nat2Z.inj_succ, Z.pow_succ_r by lia. reflexivity. }
  assert (Hpos : 0 < 2 ^ Z.of_nat retries) by (apply Z.pow_pos_nonneg; lia).
  rewrite !backoff_delay_lock_retry, Hpow.
  repeat split; try reflexivity; lia.
Qed.

End Outcomes.

Lemma sample_core : components sample_world !! 1 = Some core.
Proof. vm_compute. reflexivity. Qed.

Lemma parse_failure_outcomes_witness :
  execute parse_failure (perform_update_task "Component" 1 false) 0 sample_world
  = (Done, sample_world_alerted)
  /\ execute parse_failure (perform_load_task 1 []) 0 sample_world
     = (Failed FileParseError, sample_world_alerted).
Proof.
  destruct (parse_failure_outcomes parse_failure "Component" 1 false [] 0
              sample_world sample_world_alerted) as (_ & Hupdate & _ & Hload).
  split.
  - apply (Hupdate core); [vm_compute; reflexivity | reflexivity].
  - apply (Hload core); [vm_compute; reflexivity | reflexivity].
Defined.

(** C3 (as stated) fails for the load task: component 1 exists, loading
    it raises a parse failure, and the task ends as failed. *)
Lemma perform_load_parse_failure_counterexample :
  components sample_world !! 1 = Some core
  /\ parse_failure (create_translations 1 []) sample_world
     = (Raise FileParseError, sample_world_alerted)
  /\ (execute parse_failure (perform_load_task 1 []) 0 sample_world).1
     = Failed FileParseError
  /\ (execute parse_failure (perform_load_task 1 []) 0 sample_world).1 <> Done.
Proof.
  split; [exact sample_core|]. split; [reflexivity|].
  assert (H : (execute parse_failure (perform_load_task 1 []) 0 sample_world).1
              = Failed FileParseError).
  { unfold execute. cbn [run_task].
    unfold perform_load, bind, Component_objects_get. rewrite sample_core.
    reflexivity. }
  split; [exact H|]. rewrite H. discriminate.
Qed.

Lemma missing_target_outcomes_witness :
  execute quiet (cleanup_project_task 99) 0 sample_world = (Done, sample_world)
  /\ execute quiet (project_removal_task 99 7) 0 sample_world = (Done, sample_world)
  /\ execute quiet (perform_commit_task 99 [PyStr "commit_pending"; PyNone]) 0
       sample_world
     = (Failed (DoesNotExist ComponentModel), sample_world).
Proof.
  destruct (missing_target_outcomes quiet 99 7 false
              [PyStr "commit_pending"; PyNone] 0 sample_world)
    as (Hcleanup & Hremoval & Hperform & _).
  split; [apply Hcleanup; vm_compute; reflexivity|].
  split.
  - apply Hremoval; [vm_compute; reflexivity|].
    change (7 ∈ ({[ 7 ]} : gset Z)). apply elem_of_singleton. reflexivity.
  - destruct Hperform as [Hcommit _]; [vm_compute; reflexivity | exact Hcommit].
Defined.

(** C4 (as stated) fails for the commit task: no component 99 exists, and
    the task queued for it ends as failed with [DoesNotExist]. *)
Lemma perform_commit_missing_counterexample :
  components sample_world !! 99 = None
  /\ (execute quiet (perform_commit_task 99 [PyStr "commit_pending"; PyNone]) 0
        sample_world).1
     = Failed (DoesNotExist ComponentModel)
  /\ (execute quiet (perform_commit_task 99 [PyStr "commit_pending"; PyNone]) 0
        sample_world).1 <> Done.
Proof.
  assert (Hc : components sample_world !! 99 = None) by (vm_compute; reflexivity).
  assert (H : (execute quiet (perform_commit_task 99 [PyStr "commit_pending"; PyNone])
                 0 sample_world).1 = Failed (DoesNotExist ComponentModel)).
  { unfold execute. cbn [run_task].
    unfold perform_commit, bind, Component_objects_get. rewrite Hc. reflexivity. }
  split; [exact Hc|]. split; [exact H|]. rewrite H. discriminate.
Qed.

Lemma lock_timeout_backoff_witness :
  execute lock_busy (perform_commit_task 1 [PyStr "commit_pending"; PyNone]) 2
    sample_world
  = (Retrying (backoff_delay lock_retry 2), sample_world)
  /\ backoff_delay lock_retry 0 = 600
  /\ backoff_delay lock_retry 3 = Z.min 3600 (2 * backoff_delay lock_retry 2)
  /\ backoff_delay lock_retry 2 <= backoff_delay lock_retry 3
  /\ backoff_delay lock_retry 2 <= 3600
  /\ backoff_delay lock_retry 1 = 1200
  /\ backoff_delay lock_retry 2 = 2400.
Proof.
  apply (lock_timeout_backoff lock_busy
           (perform_commit_task 1 [PyStr "commit_pending"; PyNone]) 2
           sample_world sample_world).
  - reflexivity.
  - cbn [run_task]. unfold perform_commit, bind, Component_objects_get.
    replace (components sample_world !! 1) with (Some core)
      by (vm_compute; reflexivity).
    reflexivity.
Defined.

(** The delays of the first five attempts. *)
Example backoff_delays :
  backoff_delay lock_retry <$> [0; 1; 2; 3; 4]%nat = [600; 1200; 2400; 3600; 3600].
Proof. reflexivity. Qed.

(** * Further properties of the tasks *)

(** ** More on the commit-age scheduler *)

Lemma list_empty_no_elem {A} (l : list A) : (forall x, x ∉ l) -> l = [].
Proof. destruct l as [|x l]; [done|]. intros H. destruct (H x). left. Qed.

Lemma elem_of_commit_pending_components_listed pks w pk c :
  (pk, c) ∈ commit_pending_components (Some pks) w ->
  exists t tr, t ∈ pks /\ translations w !! t = Some tr
               /\ component_id tr = pk /\ components w !! pk = Some c.
Proof.
  cbn [commit_pending_components]. unfold distinct, Component_filter_translation_pk_in.
  intros Hin. apply elem_of_remove_dups, list_elem_of_omap in Hin as ([t tr] & Hin & Hrow).
  apply elem_of_map_to_list in Hin. cbn [fst snd] in Hrow.
  case_bool_decide as Ht; [|done].
  destruct (components w !! component_id tr) as [c'|] eqn:Hc; [|done].
  cbn in Hrow. injection Hrow as <- <-. eauto 10.
Qed.

(** When the caller lists candidate translations, only a component that
    owns one of them can get a commit task; when none of the listed ids is
    a translation (so also for an empty list) the run changes nothing, not
    even the clock is read. *)
Theorem commit_pending_scans_listed_only
    (hours : option Z) (pks : list Z) (logger : bool) (w : world) :
  exists n tasks lines,
    commit_pending hours (Some pks) logger w = (Ok tt, after_scan n tasks lines w)
    /\ (forall pk args, perform_commit_task pk args ∈ tasks ->
          exists t tr, t ∈ pks /\ translations w !! t = Some tr
                       /\ component_id tr = pk /\ is_Some (components w !! pk))
    /\ ((forall t, t ∈ pks -> translations w !! t = None) ->
          commit_pending hours (Some pks) logger w = (Ok tt, w)).
Proof.
  eexists _, _, _. split; [apply commit_pending_run|]. split.
  - intros pk args Hin.
    apply elem_of_due_tasks in Hin as (i & pk' & c & Hi & _ & Heq).
    unfold commit_task in Heq. injection Heq as -> ->.
    apply list_elem_of_lookup_2 in Hi.
    apply elem_of_commit_pending_components_listed in Hi
      as (t & tr & H1 & H2 & H3 & H4). exists t, tr. rewrite H4. eauto.
  - intros Hnone. rewrite commit_pending_run.
    assert (Hrows : commit_pending_components (Some pks) w = []).
    { apply list_empty_no_elem. intros [pk c] Hin.
      apply elem_of_commit_pending_components_listed in Hin
        as (t & tr & H1 & H2 & _). rewrite (Hnone t H1) in H2. done. }
    rewrite Hrows. cbn [length due_tasks due_lines].
    destruct logger; rewrite after_scan_nothing; reflexivity.
Qed.

Lemma due_tasks_length hours clk rows : forall tick,
  (length (due_tasks hours clk tick rows) <= length rows)%nat
  /\ length (due_lines hours clk tick rows) = length (due_tasks hours clk tick rows).
Proof.
  induction rows as [|row rows IH]; intros tick; cbn [due_tasks due_lines length].
  - split; reflexivity.
  - destruct (IH (S tick)) as [IH1 IH2]. rewrite !length_app, IH2.
    destruct (dueb hours (clk tick) row.2); cbn [length]; split; lia.
Qed.

Lemma due_tasks_NoDup hours clk rows : forall tick,
  NoDup rows.*1 -> NoDup (due_tasks hours clk tick rows).
Proof.
  induction rows as [|[pk c] rows IH]; intros tick Hnd; cbn [due_tasks].
  - constructor.
  - cbn in Hnd. apply NoDup_cons in Hnd as [Hnotin Hnd].
    apply NoDup_app. split; [|split; [|apply IH; exact Hnd]].
    + cbn [fst snd]. destruct (dueb hours (clk tick) c);
        [apply NoDup_singleton | constructor].
    + intros t Ht Hrest. cbn [fst snd] in Ht.
      destruct (dueb hours (clk tick) c); [|inversion Ht].
      apply list_elem_of_singleton in Ht. subst t.
      apply elem_of_due_tasks in Hrest as (j & pk' & c' & Hj & _ & Heq).
      apply commit_task_inj in Heq as <-. apply Hnotin.
      apply list_elem_of_fmap. exists (pk, c'). split; [done|].
      eapply list_elem_of_lookup_2; eauto.
Qed.

(** One run reads the clock once per scanned component, queues at most one
    task per scanned component and no task twice, and, when a logger is
    given, writes exactly one line per task it queues (none otherwise). *)
Theorem commit_pending_counts
    (hours : option Z) (pks : option (list Z)) (logger : bool) (w : world) :
  exists tasks lines,
    commit_pending hours pks logger w
    = (Ok tt, after_scan (length (commit_pending_components pks w)) tasks lines w)
    /\ (length tasks <= length (commit_pending_components pks w))%nat
    /\ NoDup tasks
    /\ length lines = (if logger then length tasks else 0%nat).
Proof.
  eexists _, _. split; [apply commit_pending_run|].
  destruct (due_tasks_length hours (clock w) (commit_pending_components pks w)
              (ticks w)) as [Hle Hlines].
  split; [exact Hle|]. split.
  - apply due_tasks_NoDup, commit_pending_components_NoDup.
  - destruct logger; [exact Hlines | reflexivity].
Qed.

Lemma dueb_later hours now now' c :
  now <= now' -> dueb hours now c = true -> dueb hours now' c = true.
Proof.
  intros Hle. unfold dueb. destruct (last_changed c) as [lc|]; [|done].
  rewrite !andb_true_iff, !bool_decide_eq_true. intros [H1 H2]. split; [lia|done].
Qed.

(** A component that is queued at one reading of the clock is queued at
    every later reading as well, as long as the component itself is as it
    was: once due, it stays due until it is committed. *)
Theorem commit_pending_body_stays_due
    (hours : option Z) (logger : bool) (pk : Z) (c : component)
    (w1 w2 : world) (lines : list string) :
  commit_pending_body hours logger (pk, c) w1
    = (Ok tt, after_scan 1 [commit_task pk] lines w1) ->
  clock w1 (ticks w1) <= clock w2 (ticks w2) ->
  commit_pending_body hours logger (pk, c) w2
    = (Ok tt, after_scan 1 [commit_task pk] lines w2).
Proof.
  intros Hrun Hle. rewrite commit_pending_body_spec in Hrun.
  apply (f_equal snd) in Hrun. cbn [snd] in Hrun.
  assert (Hq : queue w1 ++ (if dueb hours (clock w1 (ticks w1)) c
                            then [commit_task pk] else [])
               = queue w1 ++ [commit_task pk])
    by exact (f_equal queue Hrun).
  assert (Ho : output w1 ++ (if logger
                             then due_lines hours (clock w1) (ticks w1) [(pk, c)]
                             else [])
               = output w1 ++ lines)
    by exact (f_equal output Hrun).
  apply app_inv_head in Hq. apply app_inv_head in Ho.
  assert (Hdue : dueb hours (clock w1 (ticks w1)) c = true).
  { destruct (dueb hours (clock w1 (ticks w1)) c); [reflexivity | discriminate Hq]. }
  rewrite commit_pending_body_spec.
  cbn [due_lines fst snd] in *.
  rewrite Hdue in Ho. rewrite (dueb_later _ _ _ _ Hle Hdue), <- Ho. reflexivity.
Qed.

Lemma commit_pending_body_stays_due_witness :
  commit_pending_body None false (1, core) (set_ticks S sample_world)
  = (Ok tt, after_scan 1 [commit_task 1] [] (set_ticks S sample_world)).
Proof.
  apply (commit_pending_body_stays_due None false 1 core sample_world
           (set_ticks S sample_world) []).
  - rewrite commit_pending_body_spec. reflexivity.
  - vm_compute. discriminate.
Defined.

(** ** More on the alert engine *)

Lemma evaluate_alerts_other_name threshold a row pk name :
  name <> "RepositoryOutdated" -> name <> "RepositoryChanges" ->
  (pk, name) ∈ evaluate_alerts threshold a row <-> (pk, name) ∈ a.
Proof.
  intros H1 H2. unfold evaluate_alerts.
  assert (Hne1 : (pk, name) <> (row.1, "RepositoryOutdated")) by congruence.
  assert (Hne2 : (pk, name) <> (row.1, "RepositoryChanges")) by congruence.
  repeat case_bool_decide;
    repeat first [ rewrite elem_of_add_ne by assumption
                 | rewrite elem_of_remove_ne by assumption ];
    reflexivity.
Qed.

Lemma foldl_evaluate_alerts_other_name threshold rows : forall a pk name,
  name <> "RepositoryOutdated" -> name <> "RepositoryChanges" ->
  (pk, name) ∈ foldl (evaluate_alerts threshold) a rows <-> (pk, name) ∈ a.
Proof.
  induction rows as [|row rows IH]; intros a pk name H1 H2; cbn [foldl]; [done|].
  rewrite IH by done. apply evaluate_alerts_other_name; done.
Qed.

Lemma repository_alerts_run threshold w :
  repository_alerts threshold w =
  (Ok tt,
   set_alerts (fun _ => foldl (evaluate_alerts (default 10 threshold))
                          (alerts w) (with_repo w)) w).
Proof.
  unfold repository_alerts, bind, gets. rewrite repository_alerts_loop.
  reflexivity.
Qed.

Lemma foldl_evaluate_alerts_settled threshold rows a :
  NoDup rows.*1 ->
  foldl (evaluate_alerts threshold) (foldl (evaluate_alerts threshold) a rows) rows
  = foldl (evaluate_alerts threshold) a rows.
Proof.
  intros Hnd. apply set_eq. intros [pk name].
  destruct (decide (pk ∈ rows.*1)) as [Hin|Hnotin].
  - apply list_elem_of_fmap in Hin as ([pk' c] & -> & Hin). cbn [fst].
    destruct (decide (name = "RepositoryOutdated")) as [->|Hn1].
    { destruct (foldl_evaluate_alerts_row threshold rows a pk' c Hnd Hin) as [H1 _].
      destruct (foldl_evaluate_alerts_row threshold rows
                  (foldl (evaluate_alerts threshold) a rows) pk' c Hnd Hin)
        as [H2 _].
      rewrite H1, H2. reflexivity. }
    destruct (decide (name = "RepositoryChanges")) as [->|Hn2].
    { destruct (foldl_evaluate_alerts_row threshold rows a pk' c Hnd Hin) as [_ H1].
      destruct (foldl_evaluate_alerts_row threshold rows
                  (foldl (evaluate_alerts threshold) a rows) pk' c Hnd Hin)
        as [_ H2].
      rewrite H1, H2. reflexivity. }
    apply foldl_evaluate_alerts_other_name; done.
  - apply foldl_evaluate_alerts_other. exact Hnotin.
Qed.

(** Running the alert engine a second time, with the counters as they
    were, changes nothing: the world after the first run is a fixed point
    of the task. *)
Theorem repository_alerts_idempotent (threshold : option Z) (w : world) :
  exists w1,
    repository_alerts threshold w = (Ok tt, w1)
    /\ repository_alerts threshold w1 = (Ok tt, w1).
Proof.
  eexists. split; [apply repository_alerts_run|].
  rewrite repository_alerts_run. f_equal. rewrite set_alerts_set_alerts.
  unfold set_alerts. f_equal. cbn [alerts].
  change (with_repo (World _ _ _ _ _ _ _ _ _ _ _ _ _ _ _ _ _ _ _))
    with (with_repo w).
  apply foldl_evaluate_alerts_settled, with_repo_NoDup.
Qed.

(** A run of the alert engine touches nothing but the two repository
    alerts of the components that have a repository of their own: alerts
    of any other name, and every alert of a linked or unknown component,
    are as they were, and so is everything that is not an alert. *)
Theorem repository_alerts_frame (threshold : option Z) (w : world) :
  exists a',
    repository_alerts threshold w = (Ok tt, set_alerts (fun _ => a') w)
    /\ forall pk name,
         (name <> "RepositoryOutdated" /\ name <> "RepositoryChanges")
         \/ (forall c, components w !! pk = Some c -> is_repo_link c = true) ->
         ((pk, name) ∈ a' <-> (pk, name) ∈ alerts w).
Proof.
  eexists. split; [apply repository_alerts_run|].
  intros pk name [[H1 H2] | Hlinked].
  - apply foldl_evaluate_alerts_other_name; done.
  - apply foldl_evaluate_alerts_other. intros Hin.
    apply list_elem_of_fmap in Hin as ([pk' c] & -> & Hin).
    apply elem_of_with_repo in Hin as [Hc Hrepo]. cbn [fst] in Hlinked.
    rewrite (Hlinked c Hc) in Hrepo. discriminate.
Qed.

(** ** More on the update sweep *)

(** Whatever the mode, the sweep only ever queues scheduler-triggered
    updates of components that have a repository of their own, never one
    for a linked component and never the same one twice, and it changes
    nothing but the queue. *)
Theorem update_remotes_queues_own_repositories (w : world) :
  exists tasks,
    update_remotes w = (Ok tt, set_queue (fun q => q ++ tasks) w)
    /\ NoDup tasks
    /\ forall t, t ∈ tasks ->
         exists pk c, t = perform_update_task "Component" pk true
                      /\ components w !! pk = Some c
                      /\ is_repo_link c = false.
Proof.
  unfold update_remotes, bind, gets.
  destruct (py_in (AUTO_UPDATE w)
              [PyStr "full"; PyStr "remote"; PyBool true; PyBool false]);
    cbn [negb].
  - eexists. split; [apply for_each_delay|]. split.
    + apply NoDup_fmap_2_strong; [|apply NoDup_filter, NoDup_map_to_list].
      intros [pk1 c1] [pk2 c2] [H1 _]%elem_of_with_repo [H2 _]%elem_of_with_repo Heq.
      cbn [fst] in Heq. injection Heq as <-. congruence.
    + intros t Hin. apply list_elem_of_fmap in Hin as ([pk c] & -> & Hin).
      apply elem_of_with_repo in Hin as [Hc Hrepo]. eauto.
  - exists []. split.
    + unfold ret. f_equal. symmetry. apply set_queue_same, app_nil_r.
    + split; [constructor|]. intros t Hin. inversion Hin.
Qed.

(** ** More on the cleanup of old records *)

Lemma cleanup_old_suggestions_run w d :
  SUGGESTION_CLEANUP_DAYS w = Some d -> d <> 0 ->
  cleanup_old_suggestions w =
  (Ok tt,
   set_suggestions
     (filter (fun ks : Z * suggestion =>
                ¬ suggestion_timestamp ks.2 < clock w (ticks w) - timedelta_days d))
     (set_ticks S w)).
Proof.
  intros Hd Hz. unfold cleanup_old_suggestions, bind, gets. rewrite Hd.
  rewrite bool_decide_eq_false_2 by done. reflexivity.
Qed.

Lemma cleanup_old_comments_run w d :
  COMMENT_CLEANUP_DAYS w = Some d -> d <> 0 ->
  cleanup_old_comments w =
  (Ok tt,
   set_comments
     (filter (fun kc : Z * comment =>
                ¬ comment_timestamp kc.2 < clock w (ticks w) - timedelta_days d))
     (set_ticks S w)).
Proof.
  intros Hd Hz. unfold cleanup_old_comments, bind, gets. rewrite Hd.
  rewrite bool_decide_eq_false_2 by done. reflexivity.
Qed.

(** A negative number of days is not rejected: the cutoff then lies in the
    future, and every suggestion (or comment) stamped up to the moment of
    the run is deleted. *)
Theorem cleanup_old_negative_days (w : world) (d : Z) :
  d < 0 ->
  (SUGGESTION_CLEANUP_DAYS w = Some d ->
   forall pk s, suggestions w !! pk = Some s ->
     suggestion_timestamp s <= clock w (ticks w) ->
     suggestions (cleanup_old_suggestions w).2 !! pk = None)
  /\ (COMMENT_CLEANUP_DAYS w = Some d ->
      forall pk c, comments w !! pk = Some c ->
        comment_timestamp c <= clock w (ticks w) ->
        comments (cleanup_old_comments w).2 !! pk = None).
Proof.
  intros Hneg. unfold timedelta_days. split.
  - intros Hd pk s Hs Hts. rewrite (cleanup_old_suggestions_run w d Hd) by lia.
    cbn [snd suggestions set_suggestions set_ticks].
    apply map_lookup_filter_None. right. intros s' Hs'.
    rewrite Hs in Hs'. injection Hs' as <-. cbn [snd].
    unfold timedelta_days. intros Hkeep. apply Hkeep. lia.
  - intros Hd pk c Hc Hts. rewrite (cleanup_old_comments_run w d Hd) by lia.
    cbn [snd comments set_comments set_ticks].
    apply map_lookup_filter_None. right. intros c' Hc'.
    rewrite Hc in Hc'. injection Hc' as <-. cbn [snd].
    unfold timedelta_days. intros Hkeep. apply Hkeep. lia.
Qed.

Lemma cleanup_old_negative_days_witness :
  suggestions (cleanup_old_suggestions (sample (PyStr "remote") (Some (-1)))).2 !! 2
  = None.
Proof.
  destruct (cleanup_old_negative_days (sample (PyStr "remote") (Some (-1))) (-1))
    as [Hs _]; [lia|].
  apply (Hs eq_refl 2 (Suggestion 800000000000)).
  - vm_compute. reflexivity.
  - vm_compute. discriminate.
Defined.

(** ** More on updates and removals *)

Section MoreTasks.

Variable invoke : method -> M unit.

(** The class name of an update is not validated: every name other than
    "Project" is taken to mean a component. *)
Theorem perform_update_other_class_is_component
    (cls : string) (pk : Z) (auto : bool) (w : world) :
  cls <> "Project" ->
  perform_update invoke cls pk auto w = perform_update invoke "Component" pk auto w.
Proof.
  intros Hcls. unfold perform_update, perform_update_try.
  rewrite (bool_decide_eq_false_2 (cls = "Project")) by exact Hcls.
  rewrite (bool_decide_eq_false_2 ("Component" = "Project")) by discriminate.
  reflexivity.
Qed.

(** Both removal tasks look the acting user up first, outside their
    [try]: when that user is gone the task raises [User.DoesNotExist],
    whether or not the target exists, and nothing is recorded or deleted. *)
Theorem removal_needs_user (pk uid : Z) (w : world) :
  uid ∉ users w ->
  component_removal invoke pk uid w = (Raise (DoesNotExist UserModel), w)
  /\ project_removal invoke pk uid w = (Raise (DoesNotExist UserModel), w).
Proof.
  intros Hu. unfold component_removal, project_removal, bind, User_objects_get.
  rewrite (bool_decide_eq_false_2 _ Hu). split; reflexivity.
Qed.

End MoreTasks.

Lemma perform_update_other_class_is_component_witness :
  perform_update quiet "Translation" 1 true sample_world
  = perform_update quiet "Component" 1 true sample_world.
Proof.
  apply (perform_update_other_class_is_component quiet "Translation" 1 true
           sample_world).
  discriminate.
Defined.

Lemma removal_needs_user_witness :
  component_removal quiet 1 8 sample_world = (Raise (DoesNotExist UserModel), sample_world)
  /\ project_removal quiet 1 8 sample_world
     = (Raise (DoesNotExist UserModel), sample_world).
Proof.
  apply (removal_needs_user quiet 1 8 sample_world).
  change (8 ∉ ({[ 7 ]} : gset Z)). intros H. apply elem_of_singleton in H.
  discriminate H.
Defined.

(** ** Cleanup of stale source units *)

Lemma set_units_set_units f g w :
  set_units f (set_units g w) = set_units (fun U => f (g U)) w.
Proof. destruct w; reflexivity. Qed.

Lemma set_units_same f w : f (units w) = units w -> set_units f w = w.
Proof. intros H. unfold set_units. rewrite H. destruct w; reflexivity. Qed.

Lemma cleanup_sources_component_spec row w :
  cleanup_sources_component row w =
  (Ok tt, set_units (purge_sources (translations w) row) w).
Proof. reflexivity. Qed.

Lemma cleanup_sources_loop rows : forall w,
  for_each rows cleanup_sources_component w =
  (Ok tt,
   set_units (fun U => foldl (fun U row => purge_sources (translations w) row U) U rows)
     w).
Proof.
  induction rows as [|row rows IH]; intros w; cbn [for_each foldl].
  - unfold ret. f_equal. symmetry. apply set_units_same. reflexivity.
  - unfold bind at 1. rewrite cleanup_sources_component_spec, IH, set_units_set_units.
    reflexivity.
Qed.

Lemma cleanup_sources_run pk w :
  cleanup_sources pk w =
  (Ok tt,
   set_units (fun _ => foldl (fun U row => purge_sources (translations w) row U)
                         (units w) (template_less pk w)) w).
Proof.
  unfold cleanup_sources, bind, gets. fold (template_less pk w).
  rewrite cleanup_sources_loop. reflexivity.
Qed.

Lemma elem_of_source_ids_of tr row (U : gmap Z unit_row) h :
  h ∈ source_ids_of tr row U <->
  exists k' u', U !! k' = Some u' /\ reference_unit tr row u' /\ id_hash u' = h.
Proof.
  unfold source_ids_of. rewrite elem_of_remove_dups, list_elem_of_fmap. split.
  - intros (u' & -> & Hin). apply list_elem_of_filter in Hin as [Href Hin].
    apply list_elem_of_fmap in Hin as ([k' u''] & -> & Hin).
    apply elem_of_map_to_list in Hin. exists k', u''. done.
  - intros (k' & u' & Hu & Href & <-). exists u'. split; [done|].
    apply list_elem_of_filter. split; [exact Href|].
    apply list_elem_of_fmap. exists (k', u'). split; [done|].
    apply elem_of_map_to_list. exact Hu.
Qed.

Lemma purge_sources_lookup tr row (U : gmap Z unit_row) k u :
  purge_sources tr row U !! k = Some u <-> U !! k = Some u /\ ~ orphan tr U row u.
Proof.
  unfold purge_sources. rewrite map_lookup_filter_Some. cbn [snd].
  unfold orphan. rewrite elem_of_source_ids_of. tauto.
Qed.

Lemma elem_of_template_less pk w cpk c :
  (cpk, c) ∈ template_less pk w <->
  components w !! cpk = Some c /\ project_id c = pk /\ template c = "".
Proof.
  unfold template_less. rewrite list_elem_of_filter, elem_of_map_to_list.
  cbn [snd]. tauto.
Qed.

Section SourceRows.

(** The rows of one run, and the tables it starts from. *)
Variable tr : gmap Z translation.
Variable rows : list (Z * component).
Variable U0 : gmap Z unit_row.

Hypothesis rows_functional :
  forall cpk c c', (cpk, c) ∈ rows -> (cpk, c') ∈ rows -> c = c'.

Lemma purge_sources_between U row :
  row ∈ rows -> between_passes rows U0 U -> between_passes rows U0 (purge_sources tr row U).
Proof.
  intros Hrow [Hsub Hkeep]. split.
  - intros k u [Hu _]%purge_sources_lookup. apply Hsub. exact Hu.
  - intros k u Hu Hns. apply purge_sources_lookup. split; [apply Hkeep; done|].
    intros [Hsrc _]. apply Hns. exists row. done.
Qed.

Lemma foldl_purge_sources_between rows' : forall U,
  (forall row, row ∈ rows' -> row ∈ rows) ->
  between_passes rows U0 U ->
  between_passes rows U0 (foldl (fun U row => purge_sources tr row U) U rows').
Proof.
  induction rows' as [|row rows' IH]; intros U Hincl HU; cbn [foldl]; [done|].
  apply IH.
  - intros r Hr. apply Hincl. right. exact Hr.
  - apply purge_sources_between; [apply Hincl; left | exact HU].
Qed.

Hypothesis rows_consistent :
  forall row, row ∈ rows ->
    component_id <$> tr !! source_translation row.2 = Some row.1.

Lemma reference_unit_not_source row u :
  row ∈ rows -> reference_unit tr row u -> ~ is_source rows u.
Proof.
  intros Hrow [Hcomp Hne] (row2 & Hrow2 & Hsrc).
  pose proof (rows_consistent row2 Hrow2) as Hwf. rewrite <- Hsrc, Hcomp in Hwf.
  injection Hwf as Hkey. destruct row as [cpk c], row2 as [cpk2 c2].
  cbn [fst snd] in *. subst cpk2.
  rewrite (rows_functional cpk c c2 Hrow Hrow2) in Hne. contradiction.
Qed.

Lemma orphan_between U row u :
  row ∈ rows -> between_passes rows U0 U -> orphan tr U row u <-> orphan tr U0 row u.
Proof.
  intros Hrow [Hsub Hkeep]. unfold orphan. split; intros [Hsrc Hnone];
    (split; [exact Hsrc|]); intros (k' & u' & Hu' & Href & Hh); apply Hnone;
    exists k', u'; (split; [|done]).
  - apply Hkeep; [exact Hu'|]. eapply reference_unit_not_source; eauto.
  - apply Hsub. exact Hu'.
Qed.

Lemma foldl_purge_sources_lookup rows' : forall U,
  (forall row, row ∈ rows' -> row ∈ rows) ->
  between_passes rows U0 U ->
  forall k u,
    foldl (fun U row => purge_sources tr row U) U rows' !! k = Some u <->
    U !! k = Some u /\ forall row, row ∈ rows' -> ~ orphan tr U0 row u.
Proof.
  induction rows' as [|row rows' IH]; intros U Hincl HU k u; cbn [foldl].
  - split; [intros H; split; [exact H|]; intros row Hin; inversion Hin | tauto].
  - assert (Hrow : row ∈ rows) by (apply Hincl; left).
    rewrite IH.
    + rewrite purge_sources_lookup, (orphan_between U row u Hrow HU). split.
      * intros [[Hu Hno] Hrest]. split; [exact Hu|].
        intros r [->|Hr]%elem_of_cons; [exact Hno | apply Hrest; exact Hr].
      * intros [Hu Hall]. split; [split; [exact Hu | apply Hall; left]|].
        intros r Hr. apply Hall. right. exact Hr.
    + intros r Hr. apply Hincl. right. exact Hr.
    + apply purge_sources_between; done.
Qed.

End SourceRows.

Lemma template_less_functional pk w cpk c c' :
  (cpk, c) ∈ template_less pk w -> (cpk, c') ∈ template_less pk w -> c = c'.
Proof.
  intros [H1 _]%elem_of_template_less [H2 _]%elem_of_template_less. congruence.
Qed.

Lemma between_passes_refl rows (U : gmap Z unit_row) : between_passes rows U U.
Proof. split; tauto. Qed.

(** When each visited component's source translation is one of its own
    translations, the cleanup deletes exactly the source units of the
    project's template-less components that have no unit with the same
    [id_hash] in another translation of the component; every other unit,
    and everything that is not a unit, stays. *)
Theorem cleanup_sources_deletes_orphans (pk : Z) (w : world) :
  sources_consistent pk w ->
  exists U',
    cleanup_sources pk w = (Ok tt, set_units (fun _ => U') w)
    /\ forall k u,
         U' !! k = Some u <->
         units w !! k = Some u
         /\ forall cpk c,
              components w !! cpk = Some c -> project_id c = pk -> template c = "" ->
              ~ orphan (translations w) (units w) (cpk, c) u.
Proof.
  intros Hwf. eexists. split; [apply cleanup_sources_run|]. intros k u.
  rewrite (foldl_purge_sources_lookup (translations w) (template_less pk w) (units w)
             (template_less_functional pk w)).
  - split; intros [Hu Hall]; (split; [exact Hu|]).
    + intros cpk c Hc Hp Ht. apply (Hall (cpk, c)). apply elem_of_template_less. done.
    + intros [cpk c] (Hc & Hp & Ht)%elem_of_template_less. apply Hall; done.
  - intros [cpk c] (Hc & Hp & Ht)%elem_of_template_less. apply Hwf; done.
  - tauto.
  - apply between_passes_refl.
Qed.

Lemma sources_world_consistent : sources_consistent 1 sources_world.
Proof.
  intros cpk c Hc _ _. unfold sources_world in Hc. cbn [components] in Hc.
  apply lookup_singleton_Some in Hc as [<- <-]. vm_compute. reflexivity.
Qed.

Lemma cleanup_sources_deletes_orphans_witness :
  exists U',
    cleanup_sources 1 sources_world = (Ok tt, set_units (fun _ => U') sources_world)
    /\ U' !! 100 = Some (Unit 10 1000)
    /\ U' !! 101 = Some (Unit 11 1000)
    /\ U' !! 102 = None.
Proof.
  destruct (cleanup_sources_deletes_orphans 1 sources_world sources_world_consistent)
    as (U' & Hrun & HU).
  exists U'. split; [exact Hrun|]. clear HU.
  assert (HU' : U' = units (cleanup_sources 1 sources_world).2)
    by (rewrite Hrun; reflexivity).
  rewrite HU'. vm_compute. repeat split.
Defined.

(** With source translations as in [cleanup_sources_deletes_orphans], a
    second cleanup right after the first deletes nothing: the world after
    one run is a fixed point. *)
Theorem cleanup_sources_idempotent (pk : Z) (w : world) :
  sources_consistent pk w ->
  exists w1,
    cleanup_sources pk w = (Ok tt, w1)
    /\ cleanup_sources pk w1 = (Ok tt, w1).
Proof.
  intros Hwf. eexists. split; [apply cleanup_sources_run|].
  set (tr := translations w). set (rows := template_less pk w).
  set (U1 := foldl (fun U row => purge_sources tr row U) (units w) rows).
  rewrite cleanup_sources_run, set_units_set_units. f_equal.
  unfold set_units. f_equal. cbn [units translations].
  change (template_less pk (World _ _ _ _ _ _ _ _ _ _ _ _ _ _ _ _ _ _ _))
    with rows.
  fold tr.
  assert (Hfun : forall cpk c c', (cpk, c) ∈ rows -> (cpk, c') ∈ rows -> c = c')
    by apply template_less_functional.
  assert (Hcons : forall row, row ∈ rows ->
            component_id <$> tr !! source_translation row.2 = Some row.1).
  { intros [cpk c] (Hc & Hp & Ht)%elem_of_template_less. apply Hwf; done. }
  assert (Hbetween : between_passes rows (units w) U1).
  { apply foldl_purge_sources_between; [tauto | apply between_passes_refl]. }
  apply map_eq. intros k. apply option_eq. intros u.
  rewrite (foldl_purge_sources_lookup tr rows U1 Hfun Hcons rows U1);
    [|tauto|apply between_passes_refl].
  split; [tauto|]. intros Hu. split; [exact Hu|]. intros row Hrow.
  rewrite (orphan_between tr rows (units w) Hfun Hcons U1 row u Hrow Hbetween).
  apply (foldl_purge_sources_lookup tr rows (units w) Hfun Hcons rows (units w))
    in Hu as [_ Hall]; [apply Hall; exact Hrow | tauto | apply between_passes_refl].
Qed.

Lemma cleanup_sources_idempotent_witness :
  exists w1,
    cleanup_sources 1 sources_world = (Ok tt, w1)
    /\ cleanup_sources 1 w1 = (Ok tt, w1).
Proof.
  exact (cleanup_sources_idempotent 1 sources_world sources_world_consistent).
Defined.

(** Whether or not the project exists, [cleanup_project] raises nothing
    and changes nothing but the table of units; it adds no unit, and it
    keeps every unit that is not in the source translation of one of the
    project's template-less components. For a project that is gone the
    table is as it was. *)
Theorem cleanup_project_only_removes_sources (pk : Z) (w : world) :
  exists U',
    cleanup_project pk w = (Ok tt, set_units (fun _ => U') w)
    /\ (forall k u, U' !! k = Some u -> units w !! k = Some u)
    /\ (forall k u,
          units w !! k = Some u ->
          (forall cpk c,
             components w !! cpk = Some c -> project_id c = pk -> template c = "" ->
             translation_id u <> source_translation c) ->
          U' !! k = Some u)
    /\ (projects w !! pk = None -> U' = units w).
Proof.
  unfold cleanup_project, bind, try_except, Project_objects_get.
  destruct (projects w !! pk) as [p|] eqn:Hp; cbn.
  - eexists. split; [apply cleanup_sources_run|].
    destruct (foldl_purge_sources_between (translations w) (template_less pk w)
                (units w) (template_less pk w) (units w)) as [Hsub Hkeep];
      [tauto | apply between_passes_refl |].
    split; [exact Hsub|]. split; [|done].
    intros k u Hu Hns. apply Hkeep; [exact Hu|].
    intros ([cpk c] & (Hc & Hpr & Ht)%elem_of_template_less & Hsrc).
    exact (Hns cpk c Hc Hpr Ht Hsrc).
  - exists (units w). split.
    + unfold ret. f_equal. symmetry. apply set_units_same. reflexivity.
    + split; [tauto|]. split; [tauto | reflexivity].
Qed.

(** ** Cleanup of suggestions *)

Lemma suggestion_text_ext (s t : suggestion_text) :
  suggestion_unit s = suggestion_unit t ->
  suggestion_target s = suggestion_target t -> s = t.
Proof. destruct s, t; cbn; congruence. Qed.

Section SuggestionCleanup.

Variable collate : string -> string.
Variable delete_log : Z -> suggestion_store -> suggestion_store.

Lemma delete_if_repeated_spec id target sugs st :
  delete_if_repeated delete_log id target sugs st =
  if existsb (fun other : Z * suggestion_text =>
                bool_decide (suggestion_target other.2 = target)) sugs
  then delete_log id st else st.
Proof.
  induction sugs as [|other rest IH]; cbn [delete_if_repeated existsb]; [done|].
  destruct (bool_decide (suggestion_target other.2 = target)); cbn [orb]; done.
Qed.

Lemma existsb_other_suggestions id s st :
  existsb (fun other : Z * suggestion_text =>
             bool_decide (suggestion_target other.2 = suggestion_target s))
          (other_suggestions collate id s st) = true
  <-> exists j, j <> id /\ store_suggestions st !! j = Some s.
Proof.
  rewrite existsb_exists. unfold other_suggestions. split.
  - intros ([j t] & Hin & Heq). apply list_elem_of_In in Hin.
    apply list_elem_of_filter in Hin as [(Hunit & _ & Hid) Hin].
    apply elem_of_map_to_list in Hin. apply bool_decide_eq_true in Heq.
    cbn [fst snd] in *. exists j. split; [exact Hid|].
    rewrite Hin. f_equal. apply suggestion_text_ext; done.
  - intros (j & Hid & Hj). exists (j, s). split.
    + apply list_elem_of_In, list_elem_of_filter. split; [done|].
      apply elem_of_map_to_list. exact Hj.
    + apply bool_decide_eq_true. reflexivity.
Qed.

Lemma cleanup_suggestions_body_spec id s st :
  is_Some (store_units st !! suggestion_unit s) ->
  exists b : bool,
    cleanup_suggestions_body collate delete_log (id, s) st
    = (Ok tt, if b then delete_log id st else st)
    /\ (b = true <-> removable st id s).
Proof.
  intros [u Hu]. unfold cleanup_suggestions_body. cbn [fst snd]. rewrite Hu.
  destruct (bool_decide (unit_target u = suggestion_target s) && unit_translated u)
    eqn:Hsame.
  - exists true. split; [reflexivity|]. split; [intros _|done]. left.
    apply andb_true_iff in Hsame as [Ht Htr]. apply bool_decide_eq_true in Ht.
    exists u. done.
  - eexists. split; [rewrite delete_if_repeated_spec; reflexivity|].
    rewrite existsb_other_suggestions. unfold removable. split; [tauto|].
    intros [(u' & Hu' & Ht & Htr) | Hother]; [|exact Hother].
    rewrite Hu in Hu'. injection Hu' as <-.
    rewrite Ht, Htr, bool_decide_eq_true_2 in Hsame by reflexivity. discriminate.
Qed.

Hypothesis delete_log_deletes : deletes_suggestion delete_log.

Lemma cleanup_suggestions_loop_spec rows : forall st,
  NoDup rows.*1 ->
  (forall i s, (i, s) ∈ rows -> store_suggestions st !! i = Some s) ->
  (forall i s, (i, s) ∈ rows -> is_Some (store_units st !! suggestion_unit s)) ->
  exists st',
    cleanup_suggestions_loop collate delete_log rows st = (Ok tt, st')
    /\ store_units st' = store_units st
    /\ (forall j t, store_suggestions st' !! j = Some t ->
          store_suggestions st !! j = Some t)
    /\ (forall j t, store_suggestions st !! j = Some t -> j ∉ rows.*1 ->
          store_suggestions st' !! j = Some t)
    /\ (forall i s, (i, s) ∈ rows -> store_suggestions st' !! i = Some s ->
          ~ same_as_translation (store_units st) s
          /\ forall j, store_suggestions st' !! j = Some s -> j = i)
    /\ (forall i s, store_suggestions st !! i = Some s ->
          ~ same_as_translation (store_units st) s ->
          exists j, store_suggestions st' !! j = Some s)
    /\ (forall i s, store_suggestions st !! i = Some s -> ~ removable st i s ->
          store_suggestions st' !! i = Some s)
    /\ ((forall i s, (i, s) ∈ rows -> ~ removable st i s) -> st' = st).
Proof.
  induction rows as [|[i0 s0] rows IH]; intros st Hnd Hpresent Hunits.
  { exists st. cbn [cleanup_suggestions_loop].
    split; [reflexivity|]. split; [reflexivity|]. split; [tauto|].
    split; [tauto|]. split; [intros i s Hin; inversion Hin|].
    split; [intros i s Hs _; exists i; exact Hs|]. split; [tauto|].
    intros _. reflexivity. }
  cbn [fmap list_fmap fst] in Hnd. apply NoDup_cons in Hnd as [Hnotin Hnd].
  assert (Hfresh : forall i s, (i, s) ∈ rows -> i <> i0).
  { intros i s Hin ->. apply Hnotin. apply list_elem_of_fmap.
    exists (i0, s). done. }
  destruct (cleanup_suggestions_body_spec i0 s0 st) as (b & Hbody & Hb).
  { apply (Hunits i0 s0). left. }
  set (st1 := if b then delete_log i0 st else st) in *.
  assert (HU1 : store_units st1 = store_units st).
  { unfold st1. destruct b; [apply delete_log_deletes | reflexivity]. }
  assert (HS1 : store_suggestions st1
                = if b then delete i0 (store_suggestions st)
                  else store_suggestions st).
  { unfold st1. destruct b; [apply delete_log_deletes | reflexivity]. }
  assert (Hsub1 : forall j t, store_suggestions st1 !! j = Some t ->
                    store_suggestions st !! j = Some t).
  { intros j t. rewrite HS1. destruct b; [|done].
    intros H. apply lookup_delete_Some in H as [_ H]. exact H. }
  assert (Hother1 : forall j t, j <> i0 -> store_suggestions st !! j = Some t ->
                      store_suggestions st1 !! j = Some t).
  { intros j t Hne Hj. rewrite HS1. destruct b; [|done].
    rewrite lookup_delete_ne by done. exact Hj. }
  destruct (IH st1 Hnd) as
    (st' & Hrun & HU & Hsub & Hframe & Hclean & Hrep & Hkeep & Hfix).
  { intros i s Hin. apply Hother1; [eapply Hfresh; eauto|].
    apply Hpresent. right. exact Hin. }
  { intros i s Hin. rewrite HU1. apply (Hunits i s). right. exact Hin. }
  exists st'. cbn [cleanup_suggestions_loop]. rewrite Hbody.
  split; [exact Hrun|]. split; [congruence|].
  split; [|split; [|split; [|split; [|split]]]].
  - intros j t Hj. apply Hsub1, Hsub, Hj.
  - intros j t Hj Hout. cbn [fmap list_fmap fst] in Hout.
    apply not_elem_of_cons in Hout as [Hne Hout].
    apply Hframe; [apply Hother1; done | exact Hout].
  - intros i s [[= -> ->]|Hin]%elem_of_cons Hi.
    + assert (Hb' : b = false).
      { destruct b; [|reflexivity]. apply Hsub in Hi. rewrite HS1 in Hi.
        rewrite lookup_delete_eq in Hi. discriminate. }
      assert (Hnr : ~ removable st i0 s0).
      { intros Hr. apply Hb in Hr. congruence. }
      split; [intros Hsame; apply Hnr; left; exact Hsame|].
      intros j Hj. destruct (decide (j = i0)) as [|Hne]; [done|].
      exfalso. apply Hnr. right. exists j. split; [done|].
      apply Hsub1, Hsub, Hj.
    + rewrite <- HU1. apply Hclean; done.
  - intros i s Hi Hns. destruct (decide (i = i0)) as [->|Hne].
    + assert (s = s0) as ->.
      { pose proof (Hpresent i0 s0 ltac:(left)) as H0. congruence. }
      destruct b eqn:Eb.
      * destruct (proj1 Hb eq_refl) as [Hsame | (j & Hj & Hjs)]; [done|].
        apply (Hrep j s0); [apply Hother1; done | rewrite HU1; exact Hns].
      * apply (Hrep i0 s0); [rewrite HS1; exact Hi | rewrite HU1; exact Hns].
    + apply (Hrep i s); [apply Hother1; done | rewrite HU1; exact Hns].
  - intros i s Hi Hnr. apply Hkeep.
    + destruct (decide (i = i0)) as [->|Hne]; [|apply Hother1; done].
      assert (s = s0) as ->.
      { pose proof (Hpresent i0 s0 ltac:(left)) as H0. congruence. }
      rewrite HS1. destruct b; [|exact Hi].
      exfalso. apply Hnr, Hb. reflexivity.
    + intros [Hsame | (j & Hj & Hjs)]; apply Hnr.
      * left. rewrite <- HU1. exact Hsame.
      * right. exists j. split; [exact Hj | apply Hsub1, Hjs].
  - intros Hnone.
    assert (Hb' : b = false).
    { destruct b; [|reflexivity]. exfalso.
      apply (Hnone i0 s0); [left | apply Hb; reflexivity]. }
    assert (Hst1 : st1 = st) by (unfold st1; rewrite Hb'; reflexivity).
    transitivity st1; [|exact Hst1]. apply Hfix. intros i s Hin. rewrite Hst1.
    apply Hnone. right. exact Hin.
Qed.

End SuggestionCleanup.

Lemma cleanup_suggestions_spec collate delete_log st :
  deletes_suggestion delete_log ->
  units_present st ->
  exists st',
    cleanup_suggestions collate delete_log st = (Ok tt, st')
    /\ store_units st' = store_units st
    /\ (forall j t, store_suggestions st' !! j = Some t ->
          store_suggestions st !! j = Some t)
    /\ (forall i s, store_suggestions st' !! i = Some s ->
          ~ same_as_translation (store_units st) s
          /\ forall j, store_suggestions st' !! j = Some s -> j = i)
    /\ (forall i s, store_suggestions st !! i = Some s ->
          ~ same_as_translation (store_units st) s ->
          exists j, store_suggestions st' !! j = Some s)
    /\ (forall i s, store_suggestions st !! i = Some s -> ~ removable st i s ->
          store_suggestions st' !! i = Some s)
    /\ ((forall i s, store_suggestions st !! i = Some s -> ~ removable st i s) ->
          st' = st).
Proof.
  intros Hdel Hunits.
  destruct (cleanup_suggestions_loop_spec collate delete_log Hdel
              (map_to_list (store_suggestions st)) st)
    as (st' & Hrun & HU & Hsub & _ & Hclean & Hrep & Hkeep & Hfix).
  { apply NoDup_fst_map_to_list. }
  { intros i s Hin. apply elem_of_map_to_list in Hin. exact Hin. }
  { intros i s Hin. apply elem_of_map_to_list in Hin. eapply Hunits, Hin. }
  exists st'. split; [exact Hrun|]. split; [exact HU|]. split; [exact Hsub|].
  split; [|split; [exact Hrep|split; [exact Hkeep|]]].
  - intros i s Hi. apply Hclean; [|exact Hi].
    apply elem_of_map_to_list, Hsub, Hi.
  - intros Hnone. apply Hfix. intros i s Hin. apply Hnone.
    apply elem_of_map_to_list in Hin. exact Hin.
Qed.

(** Provided [delete_log] removes the suggestion it is called on and
    every suggestion belongs to a unit that exists, a run raises nothing,
    only removes suggestions, and leaves no suggestion that repeats the
    translation of its translated unit and no two suggestions that say the
    same for the same unit. *)
Theorem cleanup_suggestions_removes_repeats
    (collate : string -> string)
    (delete_log : Z -> suggestion_store -> suggestion_store)
    (st : suggestion_store) :
  deletes_suggestion delete_log ->
  units_present st ->
  exists st',
    cleanup_suggestions collate delete_log st = (Ok tt, st')
    /\ store_units st' = store_units st
    /\ (forall i s, store_suggestions st' !! i = Some s ->
          store_suggestions st !! i = Some s
          /\ ~ same_as_translation (store_units st) s)
    /\ (forall i j s, store_suggestions st' !! i = Some s ->
          store_suggestions st' !! j = Some s -> i = j).
Proof.
  intros Hdel Hunits.
  destruct (cleanup_suggestions_spec collate delete_log st Hdel Hunits)
    as (st' & Hrun & HU & Hsub & Hclean & _).
  exists st'. split; [exact Hrun|]. split; [exact HU|]. split.
  - intros i s Hi. split; [apply Hsub, Hi | apply (Hclean i s Hi)].
  - intros i j s Hi Hj. symmetry. apply (Hclean i s Hi). exact Hj.
Qed.

(** Under the same provisos the cleanup loses no text: of every
    suggestion that does not repeat its unit's translation, a copy stays
    (the last one of its kind in the order of the scan), and a suggestion
    the task has no reason to remove stays under its own id. *)
Theorem cleanup_suggestions_keeps_one
    (collate : string -> string)
    (delete_log : Z -> suggestion_store -> suggestion_store)
    (st : suggestion_store) :
  deletes_suggestion delete_log ->
  units_present st ->
  exists st',
    cleanup_suggestions collate delete_log st = (Ok tt, st')
    /\ (forall i s, store_suggestions st !! i = Some s ->
          ~ same_as_translation (store_units st) s ->
          exists j, store_suggestions st' !! j = Some s)
    /\ (forall i s, store_suggestions st !! i = Some s ->
          ~ same_as_translation (store_units st) s ->
          (forall j, store_suggestions st !! j = Some s -> j = i) ->
          store_suggestions st' !! i = Some s).
Proof.
  intros Hdel Hunits.
  destruct (cleanup_suggestions_spec collate delete_log st Hdel Hunits)
    as (st' & Hrun & _ & _ & _ & Hrep & Hkeep & _).
  exists st'. split; [exact Hrun|]. split; [exact Hrep|].
  intros i s Hi Hns Honly. apply Hkeep; [exact Hi|].
  intros [Hsame | (j & Hj & Hjs)]; [done|]. apply Hj, Honly, Hjs.
Qed.

(** Under the same provisos a second run right after the first finds
    nothing to do: it never calls [delete_log] and returns the store as it
    got it. *)
Theorem cleanup_suggestions_idempotent
    (collate : string -> string)
    (delete_log : Z -> suggestion_store -> suggestion_store)
    (st : suggestion_store) :
  deletes_suggestion delete_log ->
  units_present st ->
  exists st',
    cleanup_suggestions collate delete_log st = (Ok tt, st')
    /\ cleanup_suggestions collate delete_log st' = (Ok tt, st').
Proof.
  intros Hdel Hunits.
  destruct (cleanup_suggestions_spec collate delete_log st Hdel Hunits)
    as (st' & Hrun & HU & Hsub & Hclean & _).
  exists st'. split; [exact Hrun|].
  assert (Hunits' : units_present st').
  { intros i s Hi. rewrite HU. eapply Hunits, Hsub, Hi. }
  destruct (cleanup_suggestions_spec collate delete_log st' Hdel Hunits')
    as (st'' & Hrun' & _ & _ & _ & _ & _ & Hfix).
  rewrite Hrun'. f_equal. apply Hfix. intros i s Hi.
  destruct (Hclean i s Hi) as [Hns Honly].
  intros [Hsame | (j & Hj & Hjs)].
  - apply Hns. rewrite <- HU. exact Hsame.
  - apply Hj, Honly, Hjs.
Qed.

Lemma cleanup_suggestions_body_collation collate collate' delete_log row st :
  cleanup_suggestions_body collate delete_log row st
  = cleanup_suggestions_body collate' delete_log row st.
Proof.
  unfold cleanup_suggestions_body.
  destruct (store_units st !! suggestion_unit row.2) as [u|]; [|reflexivity].
  destruct (bool_decide (unit_target u = suggestion_target row.2)
            && unit_translated u); [reflexivity|].
  rewrite !delete_if_repeated_spec. f_equal.
  pose proof (existsb_other_suggestions collate row.1 row.2 st) as H1.
  pose proof (existsb_other_suggestions collate' row.1 row.2 st) as H2.
  destruct (existsb _ (other_suggestions collate row.1 row.2 st));
    destruct (existsb _ (other_suggestions collate' row.1 row.2 st));
    try reflexivity.
  - assert (Hc : false = true) by (apply H2, H1; reflexivity). discriminate Hc.
  - assert (Hc : false = true) by (apply H1, H2; reflexivity). discriminate Hc.
Qed.

(** The outcome of the cleanup does not depend on how the database
    compares texts in the filter (MySQL compares case-insensitively): what
    decides is the exact comparison the task makes itself. This needs no
    proviso on [delete_log] or on the store. *)
Theorem cleanup_suggestions_collation_independent
    (collate collate' : string -> string)
    (delete_log : Z -> suggestion_store -> suggestion_store)
    (st : suggestion_store) :
  cleanup_suggestions collate delete_log st
  = cleanup_suggestions collate' delete_log st.
Proof.
  unfold cleanup_suggestions.
  generalize (map_to_list (store_suggestions st)) as rows. intros rows.
  revert st. induction rows as [|row rows IH]; intros st;
    cbn [cleanup_suggestions_loop]; [reflexivity|].
  rewrite (cleanup_suggestions_body_collation collate collate').
  destruct (cleanup_suggestions_body collate' delete_log row st) as [[[]|e] st1];
    [apply IH | reflexivity].
Qed.

Lemma delete_and_log_deletes : deletes_suggestion delete_and_log.
Proof. intros id st. split; reflexivity. Qed.

Lemma sample_store_units_present : units_present sample_store.
Proof.
  intros id s Hs. apply elem_of_map_to_list in Hs.
  let l := eval vm_compute in (map_to_list (store_suggestions sample_store)) in
  change (map_to_list (store_suggestions sample_store)) with l in Hs.
  repeat (apply elem_of_cons in Hs as [[= -> ->]|Hs]; [vm_compute; eauto|]).
  inversion Hs.
Qed.

Lemma cleanup_suggestions_removes_repeats_witness :
  exists st',
    cleanup_suggestions (fun _ => "") delete_and_log sample_store = (Ok tt, st')
    /\ store_units st' = store_units sample_store
    /\ (forall i s, store_suggestions st' !! i = Some s ->
          store_suggestions sample_store !! i = Some s
          /\ ~ same_as_translation (store_units sample_store) s)
    /\ (forall i j s, store_suggestions st' !! i = Some s ->
          store_suggestions st' !! j = Some s -> i = j).
Proof.
  exact (cleanup_suggestions_removes_repeats (fun _ => "") delete_and_log
           sample_store delete_and_log_deletes sample_store_units_present).
Defined.

Lemma cleanup_suggestions_keeps_one_witness :
  exists st',
    cleanup_suggestions (fun _ => "") delete_and_log sample_store = (Ok tt, st')
    /\ (forall i s, store_suggestions sample_store !! i = Some s ->
          ~ same_as_translation (store_units sample_store) s ->
          exists j, store_suggestions st' !! j = Some s)
    /\ (forall i s, store_suggestions sample_store !! i = Some s ->
          ~ same_as_translation (store_units sample_store) s ->
          (forall j, store_suggestions sample_store !! j = Some s -> j = i) ->
          store_suggestions st' !! i = Some s).
Proof.
  exact (cleanup_suggestions_keeps_one (fun _ => "") delete_and_log
           sample_store delete_and_log_deletes sample_store_units_present).
Defined.

Lemma cleanup_suggestions_idempotent_witness :
  exists st',
    cleanup_suggestions (fun _ => "") delete_and_log sample_store = (Ok tt, st')
    /\ cleanup_suggestions (fun _ => "") delete_and_log st' = (Ok tt, st').
Proof.
  exact (cleanup_suggestions_idempotent (fun _ => "") delete_and_log
           sample_store delete_and_log_deletes sample_store_units_present).
Defined.

(** On the sample store the suggestion that repeats the translation goes,
    one of the two equal suggestions goes, and the one that differs by
    case stays, even when the database takes all texts for equal; two
    removals are logged. *)
Example cleanup_suggestions_sample :
  let st' := (cleanup_suggestions (fun _ => "") delete_and_log sample_store).2 in
  store_suggestions st' !! 1 = None
  /\ store_suggestions st' !! 4 = Some (SuggestionText 2 "nazdar")
  /\ (store_suggestions st' !! 2 = None \/ store_suggestions st' !! 3 = None)
  /\ length (store_log st') = 2%nat.
Proof. vm_compute. split; [done|]. split; [done|]. split; [|done]. tauto. Qed.

(** ** The periodic schedule *)

Lemma setup_periodic_tasks_app sender :
  setup_periodic_tasks sender = sender ++ setup_periodic_tasks [].
Proof.
  unfold setup_periodic_tasks, add_periodic_task. cbn [app].
  rewrite <- !app_assoc. reflexivity.
Qed.

(** The ten periodic tasks are registered after whatever the sender holds,
    in the order of the source and under ten different names (so none takes
    the place of another); the two fulltext jobs, cleanup and optimize, are
    both on a [crontab] and are never due at the same moment. *)
Theorem setup_periodic_tasks_schedule (sender : list periodic_task) :
  setup_periodic_tasks sender = sender ++ setup_periodic_tasks []
  /\ length (setup_periodic_tasks []) = 10%nat
  /\ NoDup (periodic_name <$> setup_periodic_tasks [])
  /\ exists cleanup optimize,
       schedule_named "fulltext-cleanup" (setup_periodic_tasks []) = Some cleanup
       /\ schedule_named "fulltext-optimize" (setup_periodic_tasks []) = Some optimize
       /\ forall m, crontab_due cleanup m && crontab_due optimize m = false.
Proof.
  split; [apply setup_periodic_tasks_app|]. split; [reflexivity|]. split.
  - apply (bool_decide_unpack _). vm_compute. exact I.
  - exists (crontab 2 30 (Some saturday)), (crontab 2 30 (Some sunday)).
    split; [vm_compute; reflexivity|]. split; [vm_compute; reflexivity|].
    intros [d h m]. cbn [crontab_due moment_day moment_hour moment_minute].
    destruct d; cbn; rewrite ?andb_false_r; reflexivity.
Qed.
